(** * Consumer360 retail analytics: the batch pipeline and its specification

    A shallow embedding of the four pandas scripts of the repository

      - [scripts/01_data_cleaning.py]   (module [Cleaner])
      - [scripts/02_rfm_analysis.py]    (module [Segmenter])
      - [scripts/03_market_basket.py]   (module [BasketMiner])
      - [scripts/04_load_to_postgres.py] (module [Loader])
      - [scripts/zz_stats.py]           (module [Diagnostics])

    followed by the properties the specification states about them.

    Conventions of the embedding.  A data frame is the list of its rows, in
    frame order.  CSV reading, date parsing and the SQL connection are the
    boundary of the model: a row arrives with its cells already parsed.

    [Quantity] is an int64 column: a cell is an integer ([Z]), and the
    arithmetic the scripts do on int64 cells (the product of step 8 of the
    cleaner, the group sums of the basket miner and of the segmenter) is
    reduced to 64 bits in two's complement ([wrap64]), as numpy does it.
    [UnitPrice] and [SalesAmount] are int64 when every cell of the file is
    written as a whole number and float64 otherwise: a cell is a [num],
    which carries its dtype.  All the cells of one column have one dtype; a
    list that mixes them models no frame, and the operations follow numpy's
    promotion to float64 there.  A float64 value and the quantile edges are
    modelled by exact rationals ([Q]), compared by value ([Qeq]): rounding
    is not modelled.  A timestamp is a number of nanoseconds since the
    epoch.  [CustomerID] and [Description] are nullable ([None] is pandas'
    NaN); the cells of the other columns are filled.  A statement that
    raises ends the script: the result of a script that can raise is a
    [result].

    The pandas operations the scripts call ([dropna], boolean masks,
    [groupby], [qcut], [unstack], [fillna], [drop_duplicates], [apply],
    column assignment, [to_sql]) are not part of the repository; module
    [Pandas] writes them out following the algorithms of the library
    (pandas 2.x, [pandas/core/reshape/tile.py] for [qcut],
    [pandas/core/apply.py] and [pandas/core/frame.py] for [apply] and the
    assignment of its result). *)

From Stdlib Require Import List ZArith QArith Qround Bool String Ascii Lia.
From Stdlib Require Import DecimalString Permutation Sorted.
From Stdlib Require OrderedTypeEx FinFun.
Import ListNotations.

Local Open Scope Z_scope.

(* ================================================================== *)
(** * Part I: the embedding *)
(* ================================================================== *)

(** ** The pandas operations used by the scripts *)

Module Pandas.

(** Errors surface as Python exceptions; a script that raises writes
    nothing. *)
Inductive exn : Type :=
| ValueError (msg : string).

Inductive result (A : Type) : Type :=
| Ok (a : A)
| Raise (e : exn).
Arguments Ok {A} a.
Arguments Raise {A} e.

(** [x > y] on float64 cells. *)
Definition Qltb (x y : Q) : bool := negb (Qle_bool y x).

(** [Series.dropna()]. *)
Definition dropna {A} (s : list (option A)) : list A :=
  flat_map (fun o => match o with Some a => [a] | None => [] end) s.

Section Values.
Context {A : Type}.
Variable eqb : A -> A -> bool.

Definition isin (x : A) (l : list A) : bool := existsb (eqb x) l.

(** [unique()] and [drop_duplicates()] (keep = "first"): one left to right
    scan that keeps a value the first time it is met. *)
Definition unique (l : list A) : list A :=
  fold_left (fun seen x => if isin x seen then seen else seen ++ [x]) l [].

Definition nunique (l : list A) : Z := Z.of_nat (List.length (unique l)).

Variable leb : A -> A -> bool.

Fixpoint insert_sorted (x : A) (l : list A) : list A :=
  match l with
  | [] => [x]
  | y :: t => if leb x y then x :: y :: t else y :: insert_sorted x t
  end.

(** Ascending sort (of group keys, of the values under [quantile]). *)
Definition sort_values (l : list A) : list A :=
  fold_right insert_sorted [] l.
End Values.

Definition drop_duplicates {A} := @unique A.

(** [df.groupby(by)] with the defaults [sort=True, dropna=True]: the keys
    are the distinct non-null key values in ascending order, and a group
    holds the rows of its key in frame order. *)
Section GroupBy.
Context {R K : Type}.
Variables (eqb leb : K -> K -> bool) (by_ : R -> option K).

Definition group_keys (df : list R) : list K :=
  sort_values leb (unique eqb (dropna (map by_ df))).

Definition get_group (k : K) (df : list R) : list R :=
  filter (fun r => match by_ r with
                   | Some k' => eqb k k'
                   | None => false
                   end) df.

Definition groupby (df : list R) : list (K * list R) :=
  map (fun k => (k, get_group k df)) (group_keys df).
End GroupBy.

(** [Series.max()] of a datetime column; [None] is NaT, the maximum of an
    empty column. *)
Definition series_max (s : list Z) : option Z :=
  match s with
  | [] => None
  | x :: t => Some (fold_left Z.max t x)
  end.

(** *** Numeric cells

    int64 arithmetic is arithmetic modulo [2 ^ 64], read as a signed
    number. *)
Definition wrap64 (z : Z) : Z := (z + 2 ^ 63) mod 2 ^ 64 - 2 ^ 63.

Inductive num : Type :=
| I64 (z : Z)       (* a cell of an int64 column *)
| F64 (x : Q).      (* a cell of a float64 column *)

(** The value of a cell as a float ([astype(float)], and what a comparison
    with a constant sees). *)
Definition to_float (n : num) : Q :=
  match n with
  | I64 z => inject_Z z
  | F64 x => x
  end.

(** [a * b], cell by cell: int64 when both columns are, float64 otherwise. *)
Definition mul (a b : num) : num :=
  match a, b with
  | I64 x, I64 y => I64 (wrap64 (x * y))
  | _, _ => F64 (to_float a * to_float b)
  end.

(** [sum()] of an int64 and of a float64 column. *)
Definition sum_int (s : list Z) : Z :=
  fold_left (fun acc x => wrap64 (acc + x)) s 0.
Definition sum_float (s : list Q) : Q := fold_left Qplus s (0 # 1).

(** The cells of a column as integers, when the column is int64. *)
Fixpoint as_int64 (s : list num) : option (list Z) :=
  match s with
  | [] => Some []
  | I64 z :: t => option_map (cons z) (as_int64 t)
  | F64 _ :: _ => None
  end.

(** [sum()] of a numeric column, in the dtype of the column. *)
Definition sum_num (s : list num) : num :=
  match as_int64 s with
  | Some zs => I64 (sum_int zs)
  | None => F64 (sum_float (map to_float s))
  end.

(** *** Score cells

    The cells of a [qcut(..., labels=False)] column: int64 when no cell is
    missing, float64 with NaN otherwise. *)
Inductive Score : Type :=
| SInt (z : Z)       (* an int64 cell *)
| SFloat (z : Z)     (* a float64 cell holding the whole number z *)
| SNaN.              (* a float64 NaN *)

(** [c - s] and [s + c] for an integer constant [c]; NaN propagates. *)
Definition rsub (c : Z) (s : Score) : Score :=
  match s with
  | SInt z => SInt (c - z)
  | SFloat z => SFloat (c - z)
  | SNaN => SNaN
  end.

Definition add (s : Score) (c : Z) : Score :=
  match s with
  | SInt z => SInt (z + c)
  | SFloat z => SFloat (z + c)
  | SNaN => SNaN
  end.

Definition str_int (z : Z) : string := NilZero.string_of_int (Z.to_int z).

(** [astype(str)] on one cell: [5 -> "5"], [5.0 -> "5.0"], [NaN -> "nan"]. *)
Definition astype_str (s : Score) : string :=
  match s with
  | SInt z => str_int z
  | SFloat z => String.append (str_int z) ".0"
  | SNaN => "nan"%string
  end.

(** *** [pd.qcut(x, q, labels=False, duplicates='drop')]

    [qcut] computes the [q + 1] quantiles of the column as bin edges
    ([Series.quantile], linear interpolation), hands them to [_bins_to_cuts],
    which drops repeated edges, finds the interval of every value by
    [searchsorted], and returns the interval numbers, counted from 0.

    The fractions and the interpolation are exact rationals here.  numpy
    computes them in float64, where the fraction 3/5 is
    0.6000000000000001: an edge that falls on a value of the column can
    come out one unit in the last place above it there, and is then not a
    repeated edge.  Which interval a value falls in can differ from pandas
    for such columns. *)

(** [np.linspace(0, 1, q + 1)]: the fractions [k/q]. *)
Definition linspace01 (q : nat) : list Q :=
  map (fun k => Z.of_nat k # Pos.of_nat q) (seq 0 (S q)).

(** Quantile by linear interpolation on the ascending values: the virtual
    index is [p * (n - 1)], the result lies between its two neighbours. *)
Definition quantile (sorted : list Q) (p : Q) : Q :=
  let n := List.length sorted in
  let vi := (p * inject_Z (Z.of_nat n - 1))%Q in
  let j := Z.to_nat (Qfloor vi) in
  let g := (vi - inject_Z (Qfloor vi))%Q in
  let a := nth j sorted (0 # 1) in
  let b := nth (Nat.min (j + 1) (n - 1)) sorted (0 # 1) in
  (a + (b - a) * g)%Q.

(** [bins.searchsorted(x, side="left")] on ascending edges: the number of
    edges strictly below [x]. *)
Fixpoint searchsorted_left (bins : list Q) (x : Q) : nat :=
  match bins with
  | [] => O
  | b :: t => if Qltb b x then S (searchsorted_left t x) else O
  end.

(** The edge list of [qcut]: the [q + 1] quantiles, with duplicate edges
    dropped unless there are exactly two edges. *)
Definition qcut_bins (x : list Q) (q : nat) : list Q :=
  let bins := map (quantile (sort_values Qle_bool x)) (linspace01 q) in
  let unique_bins := unique Qeq_bool bins in
  if ((List.length unique_bins <? List.length bins)%nat
      && negb (List.length bins =? 2)%nat)%bool
  then unique_bins else bins.

(** [_bins_to_cuts] with [right=True, include_lowest=True]:
    [ids = bins.searchsorted(x, side="left")], then [ids[x == bins[0]] = 1];
    the places where [ids == len(bins)] or [ids == 0] are missing
    ([na_mask]).  With [labels=False] the result is [ids - 1], turned to
    float64 with NaN at the missing places when any place is missing.  With
    a single edge left, [len(bins)] is 1 and every place is missing. *)
Definition cut_id (bins : list Q) (v : Q) : nat :=
  if Qeq_bool v (hd (0 # 1) bins) then 1%nat else searchsorted_left bins v.

Definition is_na (bins : list Q) (id : nat) : bool :=
  ((id =? List.length bins)%nat || (id =? 0)%nat)%bool.

Definition qcut (x : list Q) (q : nat) : list Score :=
  match x with
  | [] => []   (* no value to place *)
  | _ =>
      let bins := qcut_bins x q in
      let ids := map (cut_id bins) x in
      if existsb (is_na bins) ids
      then map (fun id => if is_na bins id then SNaN
                          else SFloat (Z.of_nat id - 1)) ids
      else map (fun id => SInt (Z.of_nat id - 1)) ids
  end.

(** *** [DataFrame.apply(f, axis=1)] and column assignment

    On a frame with at least one row [apply] calls [f] on every row and
    returns the column of results.  On a frame without rows no row is there
    to call [f] on: [apply_empty_result] tries [f] on an empty row to see
    whether it reduces, the trial raises inside [f], the exception is
    dropped, and the result is a copy of the frame itself, with all its
    columns. *)
Inductive applied (R : Type) : Type :=
| AsSeries (col : list string)
| AsFrame (copy : list R) (ncols : nat).
Arguments AsSeries {R} col.
Arguments AsFrame {R} copy ncols.

Definition apply_axis1 {R} (ncols : nat) (f : R -> string) (df : list R)
  : applied R :=
  match df with
  | [] => AsFrame [] ncols
  | _ => AsSeries (map f df)
  end.

(** [df[key] = value] for a new [key]: a column is attached row by row; a
    frame ([_set_item_frame_value]) is accepted only if it has exactly one
    column, and raises ValueError otherwise. *)
Definition setitem {R R'} (key : string) (attach : R -> string -> R')
    (df : list R) (value : applied R) : result (list R') :=
  match value with
  | AsSeries col => Ok (map (fun p => attach (fst p) (snd p)) (combine df col))
  | AsFrame _ n =>
      if (n =? 1)%nat then Ok []
      else if (n =? 0)%nat
      then Raise (ValueError
             (String.append "Cannot set a DataFrame without columns to the column " key))
      else Raise (ValueError
             (String.append "Cannot set a DataFrame with multiple columns to the single column " key))
  end.

End Pandas.

(** ** The data model: one transaction line *)

Module Retail.
Import Pandas.

(** The eight columns of [OnlineRetail.csv]. *)
Record Row : Type := mkRow {
  InvoiceNo : string;
  StockCode : string;
  Description : option string;
  Quantity : Z;
  InvoiceDate : Z;
  UnitPrice : num;
  CustomerID : option Z;
  Country : string
}.

(** A row of [clean_retail_data.csv]: the eight columns and [SalesAmount]. *)
Record CleanRow : Type := mkClean {
  line : Row;
  SalesAmount : num
}.

(** One day, as a [pd.Timedelta(days=1)], in nanoseconds. *)
Definition one_day : Z := 86400 * 1000000000.

End Retail.

(** ** [01_data_cleaning.py] *)

Module Cleaner.
Import Pandas Retail.

(** Step 3: [df.dropna(subset=["CustomerID"])]. *)
Definition step3 (df : list Row) : list Row :=
  filter (fun r => match CustomerID r with Some _ => true | None => false end) df.

(** Step 4: [df[~df["InvoiceNo"].astype(str).str.startswith("C")]]. *)
Definition step4 (df : list Row) : list Row :=
  filter (fun r => negb (String.prefix "C" (InvoiceNo r))) df.

(** Step 5: [df[df["Quantity"] > 0]]. *)
Definition step5 (df : list Row) : list Row :=
  filter (fun r => 0 <? Quantity r) df.

(** Step 6: [df[df["UnitPrice"] > 0]]. *)
Definition step6 (df : list Row) : list Row :=
  filter (fun r => Qltb (0 # 1) (to_float (UnitPrice r))) df.

(** Step 7: [pd.to_datetime]; the timestamps are already parsed. *)
Definition step7 (df : list Row) : list Row := df.

(** Step 8: [df["SalesAmount"] = df["Quantity"] * df["UnitPrice"]]. *)
Definition step8 (df : list Row) : list CleanRow :=
  map (fun r => mkClean r (mul (I64 (Quantity r)) (UnitPrice r))) df.

(** The script, from the loaded raw frame to the frame it saves. *)
Definition clean (df : list Row) : list CleanRow :=
  step8 (step7 (step6 (step5 (step4 (step3 df))))).

(** Loading a saved clean file as raw input again: the cleaner reads the
    eight raw columns, and step 8 overwrites the [SalesAmount] column. *)
Definition read_as_raw (df : list CleanRow) : list Row := map line df.

End Cleaner.

(** ** [02_rfm_analysis.py] *)

Module Segmenter.
Import Pandas Retail.

(** [df["InvoiceDate"].max() + pd.Timedelta(days=1)]; NaT on no rows. *)
Definition snapshot_date (df : list CleanRow) : option Z :=
  option_map (fun m => m + one_day)
             (series_max (map (fun r => InvoiceDate (line r)) df)).

(** The frame after [groupby("CustomerID").agg(...).reset_index()] and the
    renaming of its columns.  [Monetary] holds the value of the sum, which
    is an int64 or a float64 cell as the [SalesAmount] column is. *)
Record Rfm : Type := mkRfm {
  CustomerID : Z;
  Recency : Z;
  Frequency : Z;
  Monetary : Q
}.

(** [lambda x: (snapshot_date - x.max()).days]: whole days, rounded down.
    A group is never empty, so [x.max()] is never NaT. *)
Definition recency_days (snapshot : Z) (x : list Z) : Z :=
  match series_max x with
  | Some latest => (snapshot - latest) / one_day
  | None => 0
  end.

Definition agg (snapshot : Z) (g : Z * list CleanRow) : Rfm :=
  {| CustomerID := fst g;
     Recency := recency_days snapshot (map (fun r => InvoiceDate (line r)) (snd g));
     Frequency := nunique String.eqb (map (fun r => InvoiceNo (line r)) (snd g));
     Monetary := to_float (sum_num (map SalesAmount (snd g))) |}.

Definition rfm (df : list CleanRow) : list Rfm :=
  match snapshot_date df with
  | Some snapshot =>
      map (agg snapshot)
          (groupby Z.eqb Z.leb (fun r => Retail.CustomerID (line r)) df)
  | None => []   (* no row, hence no group *)
  end.

(** The three [qcut] columns (lines 20-22). *)
Definition bucket_R (t : list Rfm) : list Score :=
  qcut (map (fun r => inject_Z (Recency r)) t) 5.
Definition bucket_F (t : list Rfm) : list Score :=
  qcut (map (fun r => inject_Z (Frequency r)) t) 5.
Definition bucket_M (t : list Rfm) : list Score :=
  qcut (map Monetary t) 5.

(** The frame with the three normalised scores (lines 25-27) and the
    composite string (lines 29-33). *)
Record Scored : Type := mkScored {
  metrics : Rfm;
  R_Score : Score;
  F_Score : Score;
  M_Score : Score;
  RFM_Score : string
}.

Definition rfm_score (r f m : Score) : string :=
  String.append (astype_str r) (String.append (astype_str f) (astype_str m)).

Definition with_scores (t : list Rfm) : list Scored :=
  let R := map (rsub 5) (bucket_R t) in
  let F := map (fun s => add s 1) (bucket_F t) in
  let M := map (fun s => add s 1) (bucket_M t) in
  map (fun c => match c with
                | (a, (r, (f, m))) => mkScored a r f m (rfm_score r f m)
                end)
      (combine t (combine R (combine F M))).

(** [a >= b] on Python strings: lexicographic by code point. *)
Definition str_ge (a b : string) : bool := String.leb b a.

Definition segment (row : Scored) : string :=
  if str_ge (RFM_Score row) "444" then "Champions"%string
  else if str_ge (RFM_Score row) "333" then "Loyal Customers"%string
  else if str_ge (RFM_Score row) "222" then "Potential Loyalists"%string
  else "Churn Risk"%string.

(** A row of [customer_rfm_segments.csv]. *)
Record Segmented : Type := mkSegmented {
  scored : Scored;
  Segment : string
}.

(** The whole script: [rfm["Segment"] = rfm.apply(segment, axis=1)] is the
    only statement that can raise; the frame has eight columns then. *)
Definition compute_segments (df : list CleanRow) : result (list Segmented) :=
  let t := with_scores (rfm df) in
  setitem "Segment" mkSegmented t (apply_axis1 8 segment t).



End Segmenter.

(** ** [03_market_basket.py]: the incidence matrix *)

Module BasketMiner.
Import Pandas Retail.

(** The two-level key [(InvoiceNo, Description)] and its ascending order. *)
Definition key : Type := (string * string)%type.

Definition key_eqb (a b : key) : bool :=
  (String.eqb (fst a) (fst b) && String.eqb (snd a) (snd b))%bool.

Definition key_leb (a b : key) : bool :=
  if String.eqb (fst a) (fst b) then String.leb (snd a) (snd b)
  else String.leb (fst a) (fst b).

(** A row whose [Description] is missing has no key: [groupby] leaves it
    out ([dropna=True]). *)
Definition key_of (r : CleanRow) : option key :=
  match Description (line r) with
  | Some d => Some (InvoiceNo (line r), d)
  | None => None
  end.

(** [df.groupby(["InvoiceNo", "Description"])["Quantity"].sum()]. *)
Definition quantity_sums (df : list CleanRow) : list (key * Z) :=
  map (fun g => (fst g, sum_int (map (fun r => Quantity (line r)) (snd g))))
      (groupby key_eqb key_leb key_of df).

(** A labelled two-dimensional frame: [values] has one list per index
    label, with one cell per column label. *)
Record Frame (V : Type) : Type := mkFrame {
  index : list string;
  columns : list string;
  values : list (list V)
}.
Arguments mkFrame {V} index columns values.
Arguments index {V} f.
Arguments columns {V} f.
Arguments values {V} f.

Definition lookup (s : list (key * Z)) (k : key) : option Z :=
  option_map snd (find (fun e => key_eqb (fst e) k) s).

(** [.unstack()]: the first level labels the rows, the second level the
    columns, both ascending; a pair without entry is missing (NaN). *)
Definition unstack (s : list (key * Z)) : Frame (option Z) :=
  let idx := sort_values String.leb (unique String.eqb (map (fun e => fst (fst e)) s)) in
  let cols := sort_values String.leb (unique String.eqb (map (fun e => snd (fst e)) s)) in
  mkFrame idx cols (map (fun i => map (fun d => lookup s (i, d)) cols) idx).

(** [.fillna(0)]. *)
Definition fillna (v : Z) (f : Frame (option Z)) : Frame Z :=
  mkFrame (index f) (columns f)
          (map (map (fun c => match c with Some x => x | None => v end)) (values f)).

(** [DataFrame.map(func)]: cell by cell. *)
Definition frame_map {V W} (func : V -> W) (f : Frame V) : Frame W :=
  mkFrame (index f) (columns f) (map (map func) (values f)).

Definition basket (df : list CleanRow) : Frame bool :=
  frame_map (fun x => 0 <? x) (fillna 0 (unstack (quantity_sums df))).

(** Position of a label, and [basket.loc[i, d]]. *)
Fixpoint get_loc (l : list string) (x : string) : option nat :=
  match l with
  | [] => None
  | y :: t => if String.eqb y x then Some O else option_map S (get_loc t x)
  end.

Definition loc {V} (f : Frame V) (i d : string) : option V :=
  match get_loc (index f) i, get_loc (columns f) d with
  | Some a, Some b =>
      match nth_error (values f) a with
      | Some cells => nth_error cells b
      | None => None
      end
  | _, _ => None
  end.

End BasketMiner.

(** ** [04_load_to_postgres.py] *)

Module Loader.
Import Pandas Retail.

Module DimCustomer.
Record row : Type := mk { customer_id : option Z; country : string }.
End DimCustomer.

Module DimProduct.
Record row : Type := mk { product_id : string; product_name : option string }.
End DimProduct.

Module FactSales.
Record row : Type := mk {
  invoice_no : string;
  customer_id : option Z;
  product_id : string;
  quantity : Z;
  sales_amount : num;
  invoice_date : Z
}.
End FactSales.

(** The destination: the three tables, each a list of rows. *)
Record Database : Type := mkDatabase {
  dim_customer : list DimCustomer.row;
  dim_product : list DimProduct.row;
  fact_sales : list FactSales.row
}.

Definition customer_eqb (a b : option Z * string) : bool :=
  (match fst a, fst b with
   | Some x, Some y => x =? y
   | None, None => true
   | _, _ => false
   end && String.eqb (snd a) (snd b))%bool.

(** [drop_duplicates] takes two missing cells for equal. *)
Definition product_eqb (a b : string * option string) : bool :=
  (String.eqb (fst a) (fst b)
   && match snd a, snd b with
      | Some x, Some y => String.eqb x y
      | None, None => true
      | _, _ => false
      end)%bool.

(** [df[["CustomerID", "Country"]].drop_duplicates()], columns renamed. *)
Definition df_customers (df : list CleanRow) : list DimCustomer.row :=
  map (fun p => DimCustomer.mk (fst p) (snd p))
      (drop_duplicates customer_eqb
         (map (fun r => (CustomerID (line r), Country (line r))) df)).

(** [df[["StockCode", "Description"]].drop_duplicates()], columns renamed. *)
Definition df_products (df : list CleanRow) : list DimProduct.row :=
  map (fun p => DimProduct.mk (fst p) (snd p))
      (drop_duplicates product_eqb
         (map (fun r => (StockCode (line r), Description (line r))) df)).

(** The six column projection of every row, columns renamed. *)
Definition df_facts (df : list CleanRow) : list FactSales.row :=
  map (fun r => FactSales.mk (InvoiceNo (line r)) (CustomerID (line r))
                             (StockCode (line r)) (Quantity (line r))
                             (SalesAmount r) (InvoiceDate (line r))) df.

(** [to_sql(name, engine, if_exists="replace", index=False)]: the table is
    dropped and recreated with the rows of the frame. *)
Definition to_sql_dim_customer (t : list DimCustomer.row) (db : Database) :=
  mkDatabase t (dim_product db) (fact_sales db).
Definition to_sql_dim_product (t : list DimProduct.row) (db : Database) :=
  mkDatabase (dim_customer db) t (fact_sales db).
Definition to_sql_fact_sales (t : list FactSales.row) (db : Database) :=
  mkDatabase (dim_customer db) (dim_product db) t.

(** The script, in statement order, from any prior state of the store. *)
Definition load (df : list CleanRow) (db : Database) : Database :=
  to_sql_fact_sales (df_facts df)
    (to_sql_dim_product (df_products df)
      (to_sql_dim_customer (df_customers df) db)).

End Loader.

(** ** The vocabulary of the specification *)

Module Contract.
Import Pandas Retail.

(** "The invoice identifier starts with C". *)
Definition starts_with_C (s : string) : Prop :=
  exists rest, s = String "C"%char rest.

(** The retention contract of the cleaner, on one raw row. *)
Definition retained (r : Row) : Prop :=
  CustomerID r <> None
  /\ ~ starts_with_C (InvoiceNo r)
  /\ 0 < Quantity r
  /\ (0 < to_float (UnitPrice r))%Q.

(** The retention contract as one boolean mask over the raw rows. *)
Definition keep (r : Row) : bool :=
  ((match CustomerID r with Some _ => true | None => false end
    && negb (String.prefix "C" (InvoiceNo r)))
   && (0 <? Quantity r)
   && Qltb (0 # 1) (to_float (UnitPrice r)))%bool.

(** The segmentation rule: the cutoffs in priority order, first match
    wins, and the label when none matches. *)
Definition cutoffs : list (string * string) :=
  [("444", "Champions"); ("333", "Loyal Customers");
   ("222", "Potential Loyalists")]%string.

Definition label_of (composite : string) : string :=
  match find (fun c => String.leb (fst c) composite) cutoffs with
  | Some c => snd c
  | None => "Churn Risk"%string
  end.

(** A score on the 1 to 5 scale. *)
Definition on_scale (s : Score) : Prop :=
  exists k, s = SInt k /\ 1 <= k <= 5.

(** A bucket index 0 to 4. *)
Definition bucket_index (s : Score) : Prop :=
  exists k, s = SInt k /\ 0 <= k <= 4.

(** A column takes at least two different values. *)
Definition varies (x : list Q) : Prop :=
  exists a b, In a x /\ In b x /\ ~ (a == b)%Q.

(** All three metric columns of the aggregated frame vary. *)
Definition metrics_vary (t : list Segmenter.Rfm) : Prop :=
  varies (map (fun r => inject_Z (Segmenter.Recency r)) t)
  /\ varies (map (fun r => inject_Z (Segmenter.Frequency r)) t)
  /\ varies (map Segmenter.Monetary t).

(** The two outcomes of the segmenter: the frame it writes when the
    assignment of the Segment column succeeds, and the exception of the
    assignment when the frame has no rows. *)
Definition finish (t : list Segmenter.Scored) : list Segmenter.Segmented :=
  map (fun sc => Segmenter.mkSegmented sc (Segmenter.segment sc)) t.

Definition no_rows_error : exn :=
  ValueError
    "Cannot set a DataFrame with multiple columns to the single column Segment".

(** The customer of an output record. *)
Definition customer (r : Segmenter.Segmented) : Z :=
  Segmenter.CustomerID (Segmenter.metrics (Segmenter.scored r)).

(** The three digit number with digits [r], [f], [m]. *)
Definition three_digits (r f m : Z) : Z := 100 * r + 10 * f + m.

(** The rows of one customer in the cleaned data. *)
Definition rows_of (c : Z) (df : list CleanRow) : list CleanRow :=
  filter (fun r => match CustomerID (line r) with
                   | Some c' => c' =? c
                   | None => false
                   end) df.

(** [t] is the latest timestamp of the rows [rows]. *)
Definition latest_of (rows : list CleanRow) (t : Z) : Prop :=
  (exists r, In r rows /\ InvoiceDate (line r) = t)
  /\ forall r, In r rows -> InvoiceDate (line r) <= t.

Definition distinct_invoices (rows : list CleanRow) : Z :=
  Z.of_nat (List.length (nodup string_dec (map (fun r => InvoiceNo (line r)) rows))).

Definition total_sales (rows : list CleanRow) : Q :=
  fold_right Qplus (0 # 1) (map (fun r => to_float (SalesAmount r)) rows).

(** The entry of the grouped sums under key [k]. *)
Definition group_sum (df : list CleanRow) (k : BasketMiner.key) : Z :=
  sum_int (map (fun r => Quantity (line r))
               (get_group BasketMiner.key_eqb BasketMiner.key_of k df)).

(** The summed quantity of item [d] on invoice [i]. *)
Definition quantity_on (i d : string) (df : list CleanRow) : Z :=
  fold_right Z.add 0
    (map (fun r => Quantity (line r))
         (filter (fun r => (String.eqb (InvoiceNo (line r)) i
                            && match Description (line r) with
                               | Some d' => String.eqb d' d
                               | None => false
                               end)%bool) df)).

(** The range of int64. *)
Definition in_int64 (z : Z) : Prop := - 2 ^ 63 <= z < 2 ^ 63.


(** The product of a row's quantity and unit price needs no reduction to
    64 bits: the price is a float, or the product of the two integers is in
    the range of int64. *)
Definition product_fits (r : Row) : Prop :=
  match UnitPrice r with
  | I64 p => in_int64 (Quantity r * p)
  | F64 _ => True
  end.

(** The sum of a numeric column needs no reduction to 64 bits: the column
    is float64, or the sum of its integers is in the range of int64. *)
Definition sum_fits (col : list num) : Prop :=
  match as_int64 col with
  | Some zs => in_int64 (fold_right Z.add 0 zs)
  | None => True
  end.

(** The distinct (CustomerID, Country) pairs of the cleaned data. *)
Definition customer_pair_dec (a b : option Z * string) : {a = b} + {a <> b}.
Proof.
  decide equality; [apply string_dec|].
  decide equality. apply Z.eq_dec.
Defined.

Definition distinct_customer_pairs (df : list CleanRow) : list (option Z * string) :=
  nodup customer_pair_dec
        (map (fun r => (CustomerID (line r), Country (line r))) df).

End Contract.

(** ** Sample data *)

Module Samples.
Import Pandas Retail.

Definition sale : Row :=
  mkRow "536365" "85123A" (Some "WHITE HANGING HEART T-LIGHT HOLDER"%string) 6
        1291192800000000000 (F64 (255 # 100)) (Some 17850) "United Kingdom".
Definition cancellation : Row :=
  mkRow "C536379" "D" (Some "Discount"%string) (-1)
        1291196460000000000 (F64 (2750 # 100)) (Some 14527) "United Kingdom".
Definition anonymous : Row :=
  mkRow "536414" "22139" (Some "RETROSPOT TEA SET"%string) 56
        1291202400000000000 (F64 (0 # 1)) None "United Kingdom".

(** A cleaned line of [qty] units at [price] on day [day]. *)
Definition bought (invoice item : string) (qty : Z) (day : Z) (price : Q)
    (customer : Z) (country : string) : CleanRow :=
  mkClean (mkRow invoice item (Some item) qty (day * one_day) (F64 price)
                 (Some customer) country)
          (F64 (inject_Z qty * price)).

(** One customer only. *)
Definition lone : list CleanRow :=
  [bought "536365" "LANTERN" 6 10 (339 # 100) 17850 "United Kingdom"].

(** Three customers, one invoice each. *)
Definition once_each : list CleanRow :=
  [bought "536365" "LANTERN" 6 10 (339 # 100) 17850 "United Kingdom";
   bought "536366" "HAND WARMER" 2 12 (185 # 100) 13047 "United Kingdom";
   bought "536367" "TEA SET" 1 15 (495 # 100) 12583 "France"]%string.

(** Six customers; customer 6 comes back on a second invoice, customer 3
    buys two items on one invoice. *)
Definition shop : list CleanRow :=
  [bought "1" "LANTERN" 2 10 (3 # 2) 1 "United Kingdom";
   bought "2" "LANTERN" 2 11 (3 # 2) 2 "United Kingdom";
   bought "3" "TEA SET" 2 12 (5 # 2) 3 "France";
   bought "3" "LANTERN" 1 12 (3 # 2) 3 "France";
   bought "4" "TEA SET" 2 13 (7 # 2) 4 "France";
   bought "5" "HAND WARMER" 2 14 (9 # 2) 5 "Germany";
   bought "6" "HAND WARMER" 1 15 (1 # 2) 6 "Germany";
   bought "7" "TEA SET" 6 15 (5 # 2) 6 "Germany";
   bought "7" "TEA SET" 3 15 (5 # 2) 6 "Germany"]%string.


Definition pallet : Row :=
  mkRow "536371" "22728" (Some "ALARM CLOCK"%string) 4611686018427387904
        1291192800000000000 (I64 1) (Some 12583) "France".

Definition unnamed : Row :=
  mkRow "536372" "22729" None 1
        1291192800000000000 (I64 1) (Some 12583) "France".

(** The clean file the cleaner makes of two pallets and the unnamed line. *)
Definition wholesale : list CleanRow :=
  Eval vm_compute in Cleaner.clean [pallet; pallet; unnamed].

Definition shop_segments : list Segmenter.Segmented :=
  Eval vm_compute in
    match Segmenter.compute_segments shop with
    | Pandas.Ok out => out
    | Pandas.Raise _ => []
    end.

End Samples.

(** ** More sample data *)

Module MoreSamples.

Definition once_each_segments : list Segmenter.Segmented :=
  Eval vm_compute in
    match Segmenter.compute_segments Samples.once_each with
    | Pandas.Ok out => out
    | Pandas.Raise _ => []
    end.

End MoreSamples.

(** ** [zz_stats.py]: the diagnostic report *)

Module Diagnostics.
Import Pandas Retail.

(** [mask.sum()]: the number of rows the mask selects. *)
Definition count {A} (mask : A -> bool) (s : list A) : Z :=
  Z.of_nat (List.length (filter mask s)).

(** [Series.min()] of a datetime column; [None] is NaT. *)
Definition series_min (s : list Z) : option Z :=
  match s with
  | [] => None
  | x :: t => Some (fold_left Z.min t x)
  end.

(** The values the script prints, in the order it computes them. *)
Record Report : Type := mkReport {
  raw_rows : Z;
  raw_missing_customer : Z;
  raw_negative_qty : Z;
  raw_nonpositive_price : Z;
  raw_cancelled : Z;
  clean_rows : Z;
  removed_pct : Q;
  raw_date_range : option Z * option Z;
  clean_date_range : option Z * option Z
}.

(** All the prints come after the division of line 19: either the whole
    report is printed, or the script stops on a division by zero. *)
Inductive outcome : Type :=
| Printed (r : Report)
| ZeroDivisionError.

Section Report.
(** Python's [round(x, 2)] on a float, not part of the repository. *)
Variable round2 : Q -> Q.

Definition stats (raw : list Row) (clean : list CleanRow) : outcome :=
  let raw_rows := Z.of_nat (List.length raw) in
  let raw_missing_customer :=
    count (fun r => match CustomerID r with None => true | Some _ => false end) raw in
  let raw_negative_qty := count (fun r => Quantity r <=? 0) raw in
  let raw_nonpositive_price :=
    count (fun r => Qle_bool (to_float (UnitPrice r)) (0 # 1)) raw in
  let raw_cancelled := count (fun r => String.prefix "C" (InvoiceNo r)) raw in
  let clean_rows := Z.of_nat (List.length clean) in
  if raw_rows =? 0 then ZeroDivisionError
  else
    let removed_pct :=
      round2 (inject_Z (100 * (raw_rows - clean_rows)) / inject_Z raw_rows)%Q in
    let raw_dates := map InvoiceDate raw in
    let clean_dates := map (fun r => InvoiceDate (line r)) clean in
    Printed (mkReport raw_rows raw_missing_customer raw_negative_qty
                      raw_nonpositive_price raw_cancelled clean_rows removed_pct
                      (series_min raw_dates, series_max raw_dates)
                      (series_min clean_dates, series_max clean_dates)).
End Report.

End Diagnostics.

(** ** Further vocabulary *)

Module Notions.
Import Pandas Retail.

(** Filter steps applied one after the other, the last of the list first. *)
Definition apply_steps (steps : list (list Row -> list Row)) (df : list Row)
  : list Row :=
  fold_right (fun step acc => step acc) df steps.

(** The cell [qcut] gives to the value [v] of the column [x]. *)
Definition qcut_cell (x : list Q) (q : nat) (v : Q) : Score :=
  let bins := qcut_bins x q in
  let id := cut_id bins v in
  if existsb (is_na bins) (map (cut_id bins) x)
  then (if is_na bins id then SNaN else SFloat (Z.of_nat id - 1))
  else SInt (Z.of_nat id - 1).

(** The three metric columns of the aggregated frame, as [qcut] sees them. *)
Definition recency_column (t : list Segmenter.Rfm) : list Q :=
  map (fun a => inject_Z (Segmenter.Recency a)) t.
Definition frequency_column (t : list Segmenter.Rfm) : list Q :=
  map (fun a => inject_Z (Segmenter.Frequency a)) t.
Definition monetary_column (t : list Segmenter.Rfm) : list Q :=
  map Segmenter.Monetary t.

(** The scores of the record built from the aggregated row [a]. *)
Definition score_R (t : list Segmenter.Rfm) (a : Segmenter.Rfm) : Score :=
  rsub 5 (qcut_cell (recency_column t) 5 (inject_Z (Segmenter.Recency a))).
Definition score_F (t : list Segmenter.Rfm) (a : Segmenter.Rfm) : Score :=
  add (qcut_cell (frequency_column t) 5 (inject_Z (Segmenter.Frequency a))) 1.
Definition score_M (t : list Segmenter.Rfm) (a : Segmenter.Rfm) : Score :=
  add (qcut_cell (monetary_column t) 5 (Segmenter.Monetary a)) 1.

(** A score column is uniform: whole numbers of the scale everywhere, or
    NaN everywhere. *)
Definition uniform (col : list Score) : Prop :=
  Forall Contract.on_scale col \/ Forall (eq SNaN) col.

(** The four labels from worst to best. *)
Definition rank (label : string) : Z :=
  if String.eqb label "Champions" then 3
  else if String.eqb label "Loyal Customers" then 2
  else if String.eqb label "Potential Loyalists" then 1
  else 0.

(** Some row of the data has invoice [i] and item [d]. *)
Definition occurs (i d : string) (df : list CleanRow) : Prop :=
  exists r, In r df /\ InvoiceNo (line r) = i /\ Description (line r) = Some d.

(** The distinct countries under which the customer key [k] occurs. *)
Definition option_Z_eqb (a b : option Z) : bool :=
  match a, b with
  | Some x, Some y => x =? y
  | None, None => true
  | _, _ => false
  end.

Definition countries_of (k : option Z) (df : list CleanRow) : list string :=
  nodup string_dec
        (map (fun r => Country (line r))
             (filter (fun r => option_Z_eqb (CustomerID (line r)) k) df)).

(** The distinct (StockCode, Description) pairs of the cleaned data. *)
Definition product_pair_dec (a b : string * option string) : {a = b} + {a <> b}.
Proof.
  decide equality; [|apply string_dec].
  decide equality. apply string_dec.
Defined.

Definition distinct_product_pairs (df : list CleanRow)
  : list (string * option string) :=
  nodup product_pair_dec
        (map (fun r => (StockCode (line r), Description (line r))) df).

End Notions.

(* ================================================================== *)
(** * Part II: properties *)
(* ================================================================== *)

(** ** Facts about the list operations under the frames *)

Module ListFacts.
Import Pandas.

(** Case analysis on membership in a list written out in full. *)
Ltac each_row H tac :=
  repeat (destruct H as [<-|H]; [tac|]); destruct H.

Lemma Qltb_lt x y : Qltb x y = true <-> (x < y)%Q.
Proof.
  unfold Qltb. rewrite negb_true_iff, <- not_true_iff_false, Qle_bool_iff.
  split; [apply Qnot_le_lt|apply Qlt_not_le].
Qed.

Lemma filter_filter {A} (f g : A -> bool) (l : list A) :
  filter f (filter g l) = filter (fun x => (g x && f x)%bool) l.
Proof.
  induction l as [|a l IH]; simpl; [reflexivity|].
  destruct (g a); simpl; [destruct (f a)|]; now rewrite IH.
Qed.

Lemma filter_idem {A} (f : A -> bool) (l : list A) :
  filter f (filter f l) = filter f l.
Proof.
  rewrite filter_filter. apply filter_ext. intros a. now destruct (f a).
Qed.

Lemma filter_none {A} (f : A -> bool) (l : list A) :
  (forall x, In x l -> f x = false) -> filter f l = [].
Proof.
  induction l as [|a l IH]; intros H; simpl; [reflexivity|].
  rewrite (H a) by now left. apply IH. intros x Hx. apply H. now right.
Qed.

Lemma combine_map_same {A B} (f : A -> B) (l : list A) :
  combine l (map f l) = map (fun a => (a, f a)) l.
Proof. induction l; simpl; congruence. Qed.

Lemma dropna_In {A} (s : list (option A)) (a : A) :
  In a (dropna s) <-> In (Some a) s.
Proof.
  unfold dropna. rewrite in_flat_map. split.
  - intros [[x|] [Hin Hx]]; simpl in Hx; [|contradiction].
    destruct Hx as [->|[]]. exact Hin.
  - intros Hin. exists (Some a). simpl. auto.
Qed.

(** *** [unique], up to the equality decided by [eqb] *)
Section Unique.
Context {A : Type} (eqb : A -> A -> bool) (R : A -> A -> Prop).
Hypothesis eqb_spec : forall x y, eqb x y = true <-> R x y.
Hypothesis R_refl : forall x, R x x.

Let step := fun (seen : list A) (x : A) =>
              if isin eqb x seen then seen else seen ++ [x].

Lemma isin_spec x l : isin eqb x l = true <-> exists y, In y l /\ R x y.
Proof.
  unfold isin. rewrite existsb_exists.
  split; intros [y [Hy Hxy]]; exists y; split; auto; now apply eqb_spec.
Qed.

Lemma scan_extends l : forall seen,
  exists more, fold_left step l seen = seen ++ more
               /\ (List.length more <= List.length l)%nat
               /\ incl more l.
Proof.
  induction l as [|x l IH]; intros seen; simpl.
  - exists []. rewrite app_nil_r. split; [reflexivity|].
    split; [simpl; lia|]. intros y Hy. exact Hy.
  - destruct (IH (step seen x)) as [more [E [L I]]].
    rewrite E. unfold step. destruct (isin eqb x seen).
    + exists more. split; [reflexivity|]. split; [lia|].
      intros y Hy. right. now apply I.
    + exists (x :: more). rewrite <- app_assoc. simpl.
      split; [reflexivity|]. split; [simpl; lia|].
      intros y [->|Hy]; [now left|right; now apply I].
Qed.

Lemma scan_covers l : forall seen x,
  (exists y, In y seen /\ R x y) \/ In x l ->
  exists y, In y (fold_left step l seen) /\ R x y.
Proof.
  induction l as [|a l IH]; intros seen x H; simpl.
  - destruct H as [H|[]]. exact H.
  - apply IH. unfold step. destruct (isin eqb a seen) eqn:E.
    + destruct H as [H|[->|H]]; auto. left. now apply isin_spec.
    + destruct H as [[y [Hy Hxy]]|[->|H]]; auto; left.
      * exists y. split; [apply in_or_app; now left|exact Hxy].
      * exists x. split; [apply in_or_app; right; now left|apply R_refl].
Qed.

Lemma unique_incl l : incl (unique eqb l) l.
Proof.
  unfold unique. destruct (scan_extends l []) as [more [E [_ I]]].
  fold step. rewrite E. exact I.
Qed.

Lemma unique_covers l x :
  In x l -> exists y, In y (unique eqb l) /\ R x y.
Proof. intros H. apply (scan_covers l [] x). now right. Qed.

Lemma unique_length l : (List.length (unique eqb l) <= List.length l)%nat.
Proof.
  unfold unique. destruct (scan_extends l []) as [more [E [L _]]].
  fold step. rewrite E. exact L.
Qed.

Lemma unique_hd x l d : hd d (unique eqb (x :: l)) = x.
Proof.
  unfold unique. simpl.
  destruct (scan_extends l [x]) as [more [E _]].
  fold step. rewrite E. reflexivity.
Qed.

(** A column of equal values has one distinct value. *)
Lemma unique_all_equal h l :
  (forall y, In y l -> R y h) -> unique eqb (h :: l) = [h].
Proof.
  unfold unique. simpl. fold step. induction l as [|y l IH]; intros H.
  - reflexivity.
  - simpl. unfold step at 2. simpl.
    replace (eqb y h) with true
      by (symmetry; apply eqb_spec, H; now left).
    simpl. apply IH. intros z Hz. apply H. now right.
Qed.
End Unique.

(** *** [unique] on keys with a decided Leibniz equality *)
Section UniqueEq.
Context {A : Type} (eqb : A -> A -> bool).
Hypothesis eqb_eq : forall x y, eqb x y = true <-> x = y.

Lemma unique_In l x : In x (unique eqb l) <-> In x l.
Proof.
  split; [apply unique_incl|]. intros H.
  destruct (unique_covers eqb eq eqb_eq (@eq_refl A) l x H) as [y [Hy ->]].
  exact Hy.
Qed.

Lemma scan_NoDup l : forall seen,
  NoDup seen ->
  NoDup (fold_left (fun seen x => if isin eqb x seen then seen
                                  else seen ++ [x]) l seen).
Proof.
  induction l as [|x l IH]; intros seen Hs; simpl; [exact Hs|].
  apply IH. destruct (isin eqb x seen) eqn:E; [exact Hs|].
  apply NoDup_rev in Hs. rewrite <- (rev_involutive (seen ++ [x])).
  apply NoDup_rev. rewrite rev_app_distr. simpl. constructor; [|exact Hs].
  rewrite <- in_rev. intros Hin.
  assert (isin eqb x seen = true); [|congruence].
  apply (isin_spec eqb eq eqb_eq). now exists x.
Qed.

Lemma unique_NoDup l : NoDup (unique eqb l).
Proof. apply scan_NoDup. constructor. Qed.

(** The kept values are the distinct values: as many as [nodup] keeps. *)
Lemma unique_length_nodup (dec : forall x y : A, {x = y} + {x <> y}) l :
  List.length (unique eqb l) = List.length (nodup dec l).
Proof.
  apply Permutation_length, NoDup_Permutation.
  - apply unique_NoDup.
  - apply NoDup_nodup.
  - intros x. rewrite unique_In, nodup_In. reflexivity.
Qed.

End UniqueEq.

(** *** [sort_values] *)
Section Sort.
Context {A : Type} (leb : A -> A -> bool).

Lemma insert_sorted_perm x l : Permutation (insert_sorted leb x l) (x :: l).
Proof.
  induction l as [|y l IH]; simpl; [reflexivity|].
  destruct (leb x y); [reflexivity|].
  rewrite IH. apply perm_swap.
Qed.

Lemma sort_values_perm l : Permutation (sort_values leb l) l.
Proof.
  induction l as [|x l IH]; simpl; [reflexivity|].
  rewrite insert_sorted_perm. now constructor.
Qed.

Lemma sort_values_In l x : In x (sort_values leb l) <-> In x l.
Proof.
  split; apply Permutation_in;
    [apply sort_values_perm|symmetry; apply sort_values_perm].
Qed.

Lemma sort_values_length l : List.length (sort_values leb l) = List.length l.
Proof. apply Permutation_length, sort_values_perm. Qed.

Lemma sort_values_NoDup l : NoDup l -> NoDup (sort_values leb l).
Proof.
  apply Permutation_NoDup. symmetry. apply sort_values_perm.
Qed.

Hypothesis leb_total : forall x y, leb x y = false -> leb y x = true.
Hypothesis leb_trans :
  forall x y z, leb x y = true -> leb y z = true -> leb x z = true.

Let le := fun x y => leb x y = true.

Lemma insert_sorted_sorted x l :
  StronglySorted le l -> StronglySorted le (insert_sorted leb x l).
Proof.
  induction 1 as [|y l Hl IH Hy]; simpl.
  - constructor; constructor.
  - destruct (leb x y) eqn:E.
    + constructor; [now constructor|]. constructor; [exact E|].
      eapply Forall_impl; [|exact Hy]. intros z Hz. unfold le in *. eauto.
    + constructor; [exact IH|].
      rewrite Forall_forall. intros z Hz.
      apply (Permutation_in _ (insert_sorted_perm x l)) in Hz.
      destruct Hz as [<-|Hz]; [now apply leb_total|].
      rewrite Forall_forall in Hy. now apply Hy.
Qed.

Lemma sort_values_sorted l : StronglySorted le (sort_values leb l).
Proof.
  induction l as [|x l IH]; simpl; [constructor|].
  now apply insert_sorted_sorted.
Qed.

(** In an ascending list the first value is a lower bound and the last
    value an upper bound. *)
Lemma sorted_first l d x :
  StronglySorted le l -> In x l -> x = hd d l \/ le (hd d l) x.
Proof.
  intros H Hin. destruct H as [|y l Hl Hy]; [destruct Hin|]. simpl.
  destruct Hin as [->|Hin]; [now left|right].
  rewrite Forall_forall in Hy. now apply Hy.
Qed.

Lemma sorted_last l d x :
  StronglySorted le l -> In x l -> x = last l d \/ le x (last l d).
Proof.
  induction 1 as [|y l Hl IH Hy]; intros Hin; [destruct Hin|].
  destruct l as [|z l].
  - destruct Hin as [->|[]]. now left.
  - change (last (y :: z :: l) d) with (last (z :: l) d).
    destruct Hin as [->|Hin].
    + right. rewrite Forall_forall in Hy. apply Hy.
      destruct (@exists_last _ (z :: l)) as [l' [a E]]; [discriminate|].
      rewrite E, last_last. apply in_or_app. right. now left.
    + now apply IH.
Qed.

Lemma sorted_nth l d :
  StronglySorted le l ->
  forall i j, (i < j < List.length l)%nat -> le (nth i l d) (nth j l d).
Proof.
  induction 1 as [|y l Hl IH Hy]; intros i j Hij; simpl in Hij; [lia|].
  destruct j as [|j]; [lia|]. destruct i as [|i]; simpl.
  - rewrite Forall_forall in Hy. apply Hy, nth_In. lia.
  - apply IH. lia.
Qed.

End Sort.

Section Ascending.
Context {A : Type} (rel : A -> A -> Prop).

(** Dropping values keeps a list ascending. *)
Lemma sorted_remove l1 x l2 :
  StronglySorted rel (l1 ++ x :: l2) -> StronglySorted rel (l1 ++ l2).
Proof.
  induction l1 as [|y l1 IH]; simpl; intros H.
  - now inversion H.
  - inversion H as [|? ? Hs Hf]; subst. constructor; [now apply IH|].
    rewrite Forall_forall in *. intros z Hz. apply Hf.
    apply in_app_or in Hz. apply in_or_app. destruct Hz; [now left|].
    right. now right.
Qed.

Lemma unique_sorted (eqb : A -> A -> bool) l :
  StronglySorted rel l -> StronglySorted rel (unique eqb l).
Proof.
  intros H. unfold unique.
  enough (G : forall seen, StronglySorted rel (seen ++ l) ->
            StronglySorted rel
              (fold_left (fun seen x => if isin eqb x seen then seen
                                        else seen ++ [x]) l seen))
    by (apply (G [] H)).
  clear H. induction l as [|x l IH]; intros seen H; simpl.
  - now rewrite app_nil_r in H.
  - apply IH. destruct (isin eqb x seen).
    + now apply sorted_remove in H.
    + now rewrite <- app_assoc.
Qed.
End Ascending.

(** *** [groupby] *)
Section GroupByFacts.
Context {R K : Type} (eqb leb : K -> K -> bool) (by_ : R -> option K).
Hypothesis eqb_eq : forall x y, eqb x y = true <-> x = y.

Lemma group_keys_In df k :
  In k (group_keys eqb leb by_ df) <-> exists r, In r df /\ by_ r = Some k.
Proof.
  unfold group_keys.
  rewrite sort_values_In, (unique_In eqb eqb_eq), dropna_In, in_map_iff.
  split; intros [r [H1 H2]]; exists r; auto.
Qed.

Lemma group_keys_NoDup df : NoDup (group_keys eqb leb by_ df).
Proof. apply sort_values_NoDup, (unique_NoDup eqb eqb_eq). Qed.

Lemma get_group_In k df r :
  In r (get_group eqb by_ k df) <-> In r df /\ by_ r = Some k.
Proof.
  unfold get_group. rewrite filter_In. split; intros [H1 H2]; split; auto.
  - destruct (by_ r) as [k'|]; [|discriminate].
    apply eqb_eq in H2. now subst.
  - rewrite H2. now apply eqb_eq.
Qed.

Lemma groupby_keys df :
  map fst (groupby eqb leb by_ df) = group_keys eqb leb by_ df.
Proof. unfold groupby. rewrite map_map. simpl. apply map_id. Qed.

Lemma groupby_In df g :
  In g (groupby eqb leb by_ df) ->
  In (fst g) (group_keys eqb leb by_ df)
  /\ snd g = get_group eqb by_ (fst g) df
  /\ snd g <> [].
Proof.
  unfold groupby. rewrite in_map_iff. intros [k [<- Hk]]. simpl.
  split; [exact Hk|]. split; [reflexivity|].
  apply group_keys_In in Hk. destruct Hk as [r Hr].
  apply get_group_In in Hr. intros E. rewrite E in Hr. destruct Hr.
Qed.
End GroupByFacts.

End ListFacts.

(** ** Facts about numeric cells *)

Module NumFacts.
Import Pandas Contract.

Lemma wrap64_fits z : in_int64 z -> wrap64 z = z.
Proof.
  unfold in_int64, wrap64. intros H. rewrite Z.mod_small; lia.
Qed.

Lemma wrap64_range z : in_int64 (wrap64 z).
Proof.
  unfold in_int64, wrap64.
  pose proof (Z.mod_pos_bound (z + 2 ^ 63) (2 ^ 64)). lia.
Qed.

Lemma wrap64_fits_iff z : wrap64 z = z <-> in_int64 z.
Proof.
  split; [|apply wrap64_fits]. intros <-. apply wrap64_range.
Qed.

Lemma wrap64_add a b : wrap64 (wrap64 a + b) = wrap64 (a + b).
Proof.
  unfold wrap64.
  replace ((a + 2 ^ 63) mod 2 ^ 64 - 2 ^ 63 + b + 2 ^ 63)
    with ((a + 2 ^ 63) mod 2 ^ 64 + b) by lia.
  rewrite Zplus_mod_idemp_l. do 2 f_equal. lia.
Qed.

(** The int64 sum is the sum of the integers, reduced to 64 bits once. *)
Lemma sum_int_total s : sum_int s = wrap64 (fold_right Z.add 0 s).
Proof.
  unfold sum_int.
  assert (G : forall acc,
             fold_left (fun a x => wrap64 (a + x)) s (wrap64 acc)
             = wrap64 (acc + fold_right Z.add 0 s)).
  { induction s as [|x s IH]; intros acc; simpl.
    - f_equal. lia.
    - rewrite wrap64_add, IH. f_equal. lia. }
  apply (G 0).
Qed.

Lemma sum_float_total s :
  (sum_float s == fold_right Qplus (0 # 1) s)%Q.
Proof.
  unfold sum_float. generalize (0 # 1)%Q as acc.
  induction s as [|x s IH]; intros acc; simpl; [reflexivity|].
  rewrite IH. clear IH. revert acc.
  induction s as [|y s IH]; intros acc; simpl; [apply Qplus_comm|].
  rewrite IH. ring.
Qed.

Lemma as_int64_Some s zs : as_int64 s = Some zs -> s = map I64 zs.
Proof.
  revert zs. induction s as [|[z|x] s IH]; intros zs; simpl.
  - intros H. injection H as <-. reflexivity.
  - destruct (as_int64 s) as [t|]; [|discriminate]. simpl.
    intros H. injection H as <-. simpl. f_equal. now apply IH.
  - discriminate.
Qed.

Lemma as_int64_map zs : as_int64 (map I64 zs) = Some zs.
Proof.
  induction zs as [|z zs IH]; simpl; [reflexivity|]. now rewrite IH.
Qed.

Lemma total_of_ints zs :
  (fold_right Qplus (0 # 1) (map to_float (map I64 zs))
   == inject_Z (fold_right Z.add 0%Z zs))%Q.
Proof.
  induction zs as [|z zs IH]; simpl; [reflexivity|].
  rewrite IH, inject_Z_plus. reflexivity.
Qed.

(** The sum of a column, as the column's dtype gives it, against the sum
    of the values of its cells. *)
Lemma sum_num_value col :
  match as_int64 col with
  | Some zs =>
      to_float (sum_num col) = inject_Z (wrap64 (fold_right Z.add 0 zs))
      /\ (fold_right Qplus (0 # 1) (map to_float col)
          == inject_Z (fold_right Z.add 0%Z zs))%Q
  | None =>
      (to_float (sum_num col)
       == fold_right Qplus (0 # 1) (map to_float col))%Q
  end.
Proof.
  unfold sum_num. destruct (as_int64 col) as [zs|] eqn:E; simpl.
  - rewrite sum_int_total. split; [reflexivity|].
    apply as_int64_Some in E. subst col. apply total_of_ints.
  - apply sum_float_total.
Qed.

Lemma sum_num_exact col :
  (to_float (sum_num col) == fold_right Qplus (0 # 1) (map to_float col))%Q
  <-> sum_fits col.
Proof.
  pose proof (sum_num_value col) as V. unfold sum_fits.
  destruct (as_int64 col) as [zs|].
  - destruct V as [-> T]. rewrite T. split.
    + intros H. apply wrap64_fits_iff. now apply inject_Z_injective.
    + intros H. now rewrite wrap64_fits.
  - tauto.
Qed.

End NumFacts.

(** ** The cleaner *)

Module CleanerSpec.
Import Pandas Retail Cleaner Contract Samples ListFacts NumFacts.

Lemma prefix_C s : String.prefix "C" s = true <-> starts_with_C s.
Proof.
  unfold starts_with_C. destruct s as [|a s]; cbn -[ascii_dec].
  - split; [discriminate|]. intros [rest H]. discriminate.
  - destruct (ascii_dec "C" a) as [<-|N].
    + split; [exists s; reflexivity|]. now destruct s.
    + split; [discriminate|]. intros [rest H]. congruence.
Qed.

Lemma keep_retained r : keep r = true <-> retained r.
Proof.
  unfold keep, retained.
  rewrite !andb_true_iff, negb_true_iff, Z.ltb_lt, Qltb_lt.
  rewrite <- (prefix_C (InvoiceNo r)).
  destruct (CustomerID r); destruct (String.prefix "C" (InvoiceNo r));
    intuition congruence.
Qed.

Lemma clean_eq df :
  clean df =
  map (fun r => mkClean r (mul (I64 (Quantity r)) (UnitPrice r)))
      (filter keep df).
Proof.
  unfold clean, step8, step7, step6, step5, step4, step3.
  rewrite !filter_filter. f_equal. apply filter_ext.
  intros r. unfold keep. now rewrite !andb_assoc.
Qed.

Lemma clean_lines df : map line (clean df) = filter keep df.
Proof. rewrite clean_eq, map_map. simpl. apply map_id. Qed.

(** C4. The cleaner keeps a raw row if and only if its customer identifier
    is present, its invoice identifier does not start with "C", its
    quantity is positive and its unit price is positive.  Nothing else
    drops a row: the kept rows are exactly the rows of the input that pass
    this test, each as often and in the order it occurs in the input. *)
Theorem clean_retains_iff (df : list Row) :
  (forall r, In r (map line (clean df)) <-> In r df /\ retained r)
  /\ exists mask : Row -> bool,
       (forall r, mask r = true <-> retained r)
       /\ map line (clean df) = filter mask df.
Proof.
  split.
  - intros r. rewrite clean_lines, filter_In, keep_retained. reflexivity.
  - exists keep. split; [apply keep_retained|apply clean_lines].
Qed.

(** The product of step 8 against the product of the two numbers. *)
Lemma mul_exact (q : Z) (p : num) :
  (to_float (mul (I64 q) p) == inject_Z q * to_float p)%Q
  <-> match p with
      | I64 z => in_int64 (q * z)
      | F64 _ => True
      end.
Proof.
  destruct p as [z|x]; simpl; [|split; [trivial|reflexivity]].
  rewrite <- inject_Z_mult, inject_Z_injective. apply wrap64_fits_iff.
Qed.




(** C6. Cleaning is idempotent: cleaning the rows the cleaner wrote gives
    the same rows again. *)
Theorem clean_idempotent (df : list Row) :
  clean (read_as_raw (clean df)) = clean df.
Proof.
  unfold read_as_raw. rewrite clean_lines, clean_eq, filter_idem.
  symmetry. apply clean_eq.
Qed.

End CleanerSpec.

(** ** Quantile binning *)

Module QcutFacts.
Import Pandas Contract ListFacts.

Lemma Qle_bool_total x y : Qle_bool x y = false -> Qle_bool y x = true.
Proof.
  rewrite <- not_true_iff_false, !Qle_bool_iff. intros H.
  apply Qlt_le_weak, Qnot_le_lt, H.
Qed.

Lemma Qle_bool_trans x y z :
  Qle_bool x y = true -> Qle_bool y z = true -> Qle_bool x z = true.
Proof. rewrite !Qle_bool_iff. apply Qle_trans. Qed.

(** The ascending values are the values, and their two ends bound them. *)
Section Ends.
Variable x : list Q.
Hypothesis nonempty : x <> [].

Let s := sort_values Qle_bool x.
Let lo := hd (0 # 1) s.
Let hi := last s (0 # 1).

Lemma sorted_nonempty : s <> [].
Proof.
  intros E. apply nonempty, length_zero_iff_nil.
  unfold s in E. rewrite <- (sort_values_length Qle_bool x), E. reflexivity.
Qed.

Lemma lo_In : In lo x.
Proof.
  apply (sort_values_In Qle_bool). fold s. unfold lo.
  pose proof sorted_nonempty. destruct s; [congruence|now left].
Qed.

Lemma hi_In : In hi x.
Proof.
  apply (sort_values_In Qle_bool). fold s. unfold hi.
  pose proof sorted_nonempty as H.
  destruct (@exists_last _ s H) as [l' [a E]].
  rewrite E, last_last. apply in_or_app. right. now left.
Qed.

Lemma lo_le v : In v x -> (lo <= v)%Q.
Proof.
  intros H. apply (sort_values_In Qle_bool) in H. fold s in H.
  destruct (sorted_first Qle_bool s (0 # 1) v
              (sort_values_sorted Qle_bool Qle_bool_total Qle_bool_trans x) H)
    as [->|L].
  - apply Qle_refl.
  - now apply Qle_bool_iff.
Qed.

Lemma le_hi v : In v x -> (v <= hi)%Q.
Proof.
  intros H. apply (sort_values_In Qle_bool) in H. fold s in H.
  destruct (sorted_last Qle_bool s (0 # 1) v
              (sort_values_sorted Qle_bool Qle_bool_total Qle_bool_trans x) H)
    as [->|L].
  - apply Qle_refl.
  - now apply Qle_bool_iff.
Qed.

(** The first quantile is the minimum, the last one the maximum. *)
Lemma quantile_first (q : positive) : (quantile s (0 # q) == lo)%Q.
Proof.
  unfold quantile. cbv zeta.
  assert (F : Qfloor ((0 # q) * inject_Z (Z.of_nat (List.length s) - 1)) = 0).
  { unfold Qfloor, Qmult. simpl. reflexivity. }
  rewrite F. simpl Z.to_nat.
  replace (nth 0 s (0 # 1)) with lo by (unfold lo; now destruct s).
  setoid_replace (0 # q)%Q with (0 # 1)%Q by reflexivity.
  ring.
Qed.

Lemma quantile_last (q : positive) :
  (quantile s (Z.pos q # q) == hi)%Q.
Proof.
  unfold quantile. cbv zeta.
  pose proof sorted_nonempty as Hs.
  assert (Hn : (1 <= List.length s)%nat)
    by (destruct s; [congruence|simpl; lia]).
  assert (F : Qfloor ((Z.pos q # q) * inject_Z (Z.of_nat (List.length s) - 1))
              = Z.of_nat (List.length s) - 1).
  { unfold Qfloor, Qmult, inject_Z. simpl Qnum. simpl Qden.
    rewrite Pos.mul_1_r, Z.mul_comm. apply Z.div_mul. discriminate. }
  rewrite F.
  replace (Z.to_nat (Z.of_nat (List.length s) - 1))
    with (List.length s - 1)%nat by lia.
  replace (Nat.min (List.length s - 1 + 1) (List.length s - 1))
    with (List.length s - 1)%nat by lia.
  replace (nth (List.length s - 1) s (0 # 1)) with hi.
  - setoid_replace (Z.pos q # q)%Q with (1 # 1)%Q
      by (unfold Qeq; simpl; lia).
    ring.
  - unfold hi. destruct (@exists_last _ s Hs) as [l' [a E]].
    rewrite E, last_last, length_app. simpl.
    replace (List.length l' + 1 - 1)%nat with (List.length l') by lia.
    now rewrite nth_middle.
Qed.
End Ends.


Lemma linspace5 :
  linspace01 5 = [0 # 5; 1 # 5; 2 # 5; 3 # 5; 4 # 5; 5 # 5]%Q.
Proof. reflexivity. Qed.

Lemma searchsorted_lt bins v :
  (exists b, In b bins /\ (v <= b)%Q) ->
  (searchsorted_left bins v < List.length bins)%nat.
Proof.
  induction bins as [|b bins IH]; intros [c [Hc Hv]]; [destruct Hc|].
  simpl. destruct (Qltb b v) eqn:E; [|lia].
  apply Qltb_lt in E. destruct Hc as [->|Hc].
  - exfalso. apply (Qlt_not_le _ _ E Hv).
  - apply -> Nat.succ_lt_mono. apply IH. eauto.
Qed.

Lemma searchsorted_pos bins v :
  bins <> [] -> (hd (0 # 1) bins < v)%Q ->
  (1 <= searchsorted_left bins v)%nat.
Proof.
  destruct bins as [|b bins]; [congruence|]. simpl. intros _ H.
  apply Qltb_lt in H. rewrite H. lia.
Qed.

(** The edges [qcut] works with, on a column with at least one value. *)
Section Bins.
Variable x : list Q.
Hypothesis nonempty : x <> [].

Let s := sort_values Qle_bool x.
Let bins := qcut_bins x 5.

Lemma bins_cases :
  bins = map (quantile s) (linspace01 5)
  \/ bins = unique Qeq_bool (map (quantile s) (linspace01 5)).
Proof.
  unfold bins, qcut_bins. fold s.
  destruct (_ && _)%bool; [now right|now left].
Qed.

Lemma bins_hd : (hd (0 # 1) bins == hd (0 # 1) s)%Q.
Proof.
  destruct bins_cases as [-> | ->]; rewrite linspace5;
    cbn [map]; [|rewrite unique_hd]; cbn [hd];
    apply (quantile_first x).
Qed.

Lemma bins_last : exists b, In b bins /\ (last s (0 # 1) == b)%Q.
Proof.
  assert (H : In (quantile s (5 # 5))
                 (map (quantile s) (linspace01 5))).
  { rewrite linspace5. cbn [map]. do 5 right. now left. }
  destruct bins_cases as [-> | ->].
  - eexists. split; [exact H|]. symmetry.
    apply (quantile_last x nonempty 5).
  - destruct (unique_covers Qeq_bool Qeq Qeq_bool_iff Qeq_refl _ _ H)
      as [b [Hb E]].
    exists b. split; [exact Hb|]. rewrite <- E. symmetry.
    apply (quantile_last x nonempty 5).
Qed.

Lemma bins_length : (List.length bins <= 6)%nat.
Proof.
  destruct bins_cases as [-> | ->].
  - rewrite length_map. reflexivity.
  - etransitivity; [apply unique_length|]. rewrite length_map. reflexivity.
Qed.

Lemma bins_nonempty : bins <> [].
Proof.
  destruct bins_last as [b [Hb _]]. intros E. rewrite E in Hb. destruct Hb.
Qed.

(** With two different values in the column there are at least two
    edges, and every value falls in one of the intervals. *)
Lemma bins_two : varies x -> (2 <= List.length bins)%nat.
Proof.
  intros [a [b [Ha [Hb N]]]].
  destruct bins_last as [e [He Ee]]. pose proof bins_hd as Eh.
  destruct bins as [|h t]; [destruct He|]. cbn [hd] in Eh.
  destruct He as [<-|He].
  - exfalso. apply N.
    pose proof (lo_le x a Ha). pose proof (le_hi x a Ha).
    pose proof (lo_le x b Hb). pose proof (le_hi x b Hb).
    unfold s in Ee, Eh. rewrite Ee, <- Eh in *.
    apply Qle_antisym; eapply Qle_trans; eauto.
  - destruct t; [destruct He|]. simpl. lia.
Qed.

Lemma cut_id_range v :
  varies x -> In v x ->
  (1 <= cut_id bins v <= List.length bins - 1)%nat.
Proof.
  intros V Hv. pose proof (bins_two V) as L2. unfold cut_id.
  destruct (Qeq_bool v (hd (0 # 1) bins)) eqn:E; [lia|].
  apply Qeq_bool_neq in E. split.
  - apply searchsorted_pos; [apply bins_nonempty|].
    pose proof (lo_le x v Hv) as L. apply Qle_lteq in L.
    destruct L as [L|L].
    + rewrite bins_hd. exact L.
    + exfalso. apply E. rewrite bins_hd. symmetry. exact L.
  - enough (searchsorted_left bins v < List.length bins)%nat by lia.
    apply searchsorted_lt. destruct bins_last as [b [Hb Eb]].
    exists b. split; [exact Hb|]. rewrite <- Eb. now apply le_hi.
Qed.
End Bins.

(** A column with two different values gets bucket indexes 0 to 4, all
    of them int64. *)
Lemma qcut_varies x : varies x -> Forall bucket_index (qcut x 5).
Proof.
  intros V. assert (N : x <> []).
  { destruct V as [a [_ [Ha _]]]. intros E. rewrite E in Ha. destruct Ha. }
  unfold qcut. destruct x as [|x0 xs] eqn:Ex; [congruence|]. rewrite <- Ex in *.
  assert (R : forall v, In v x ->
              (1 <= cut_id (qcut_bins x 5) v <= List.length (qcut_bins x 5) - 1)%nat)
    by (intros v Hv; now apply cut_id_range).
  pose proof (bins_length x) as L6.
  assert (NA : existsb (is_na (qcut_bins x 5)) (map (cut_id (qcut_bins x 5)) x)
               = false).
  { apply not_true_iff_false. rewrite existsb_exists.
    intros [id [Hid Hna]]. apply in_map_iff in Hid.
    destruct Hid as [v [<- Hv]]. specialize (R v Hv).
    unfold is_na in Hna. apply orb_true_iff in Hna.
    destruct Hna as [Hna|Hna]; apply Nat.eqb_eq in Hna; lia. }
  rewrite NA. rewrite Forall_forall. intros c Hc.
  rewrite map_map in Hc. apply in_map_iff in Hc. destruct Hc as [v [<- Hv]].
  specialize (R v Hv). eexists. split; [reflexivity|lia].
Qed.

(** *** The edges are ascending

    [searchsorted] is a binary search and needs ascending edges; on them it
    returns the number of edges strictly below the value, which is what
    [searchsorted_left] counts. *)

Lemma quantile_mono (s : list Q) (p1 p2 : Q) :
  StronglySorted (fun a b => Qle_bool a b = true) s -> s <> [] ->
  (0 <= p1)%Q -> (p1 <= p2)%Q -> (p2 <= 1)%Q ->
  (quantile s p1 <= quantile s p2)%Q.
Proof.
  intros Hs Hne H0 H12 H1.
  assert (Hn : (1 <= List.length s)%nat)
    by (destruct s; [congruence|simpl; lia]).
  assert (Nth : forall i j, (i <= j < List.length s)%nat ->
                  (nth i s (0 # 1) <= nth j s (0 # 1))%Q).
  { intros i j Hij. destruct (Nat.eq_dec i j) as [->|N]; [apply Qle_refl|].
    apply Qle_bool_iff. apply (sorted_nth Qle_bool s (0 # 1) Hs). lia. }
  unfold quantile. cbv zeta.
  set (m := inject_Z (Z.of_nat (List.length s) - 1)).
  assert (Hm : (0 <= m)%Q) by (unfold m, Qle; simpl; lia).
  assert (V : forall p, (0 <= p)%Q -> (p <= 1)%Q ->
                0 <= Qfloor (p * m) <= Z.of_nat (List.length s) - 1).
  { intros p Hp0 Hp1. split.
    - apply Z.le_trans with (Qfloor (inject_Z 0)); [rewrite Qfloor_Z; lia|].
      apply Qfloor_resp_le. now apply Qmult_le_0_compat.
    - apply Z.le_trans with (Qfloor m); [|unfold m; rewrite Qfloor_Z; lia].
      apply Qfloor_resp_le.
      setoid_replace m with (1 * m)%Q at 2 by ring.
      now apply Qmult_le_compat_r. }
  assert (B : forall p, (0 <= p)%Q -> (p <= 1)%Q ->
                let j := Z.to_nat (Qfloor (p * m)) in
                let g := (p * m - inject_Z (Qfloor (p * m)))%Q in
                let a := nth j s (0 # 1) in
                let b := nth (Nat.min (j + 1) (List.length s - 1)) s (0 # 1) in
                (a <= a + (b - a) * g)%Q /\ (a + (b - a) * g <= b)%Q
                /\ (a <= b)%Q /\ (0 <= g)%Q).
  { intros p Hp0 Hp1 j g a b. pose proof (V p Hp0 Hp1) as Hj.
    assert (Hab : (a <= b)%Q) by (apply Nth; lia).
    assert (Hg0 : (0 <= g)%Q).
    { unfold g, Qminus. rewrite <- Qle_minus_iff. apply Qfloor_le. }
    assert (Hg1 : (g <= 1)%Q).
    { pose proof (Qlt_floor (p * m)) as LF. rewrite inject_Z_plus in LF.
      unfold g. apply Qlt_le_weak.
      apply Qplus_lt_l with (z := inject_Z (Qfloor (p * m))).
      setoid_replace (p * m - inject_Z (Qfloor (p * m))
                      + inject_Z (Qfloor (p * m)))%Q with (p * m)%Q by ring.
      now rewrite Qplus_comm. }
    assert (Hd : (0 <= b - a)%Q)
      by (unfold Qminus; now rewrite <- Qle_minus_iff).
    repeat split; try assumption.
    - setoid_replace a with (a + 0)%Q at 1 by ring.
      apply Qplus_le_r. now apply Qmult_le_0_compat.
    - setoid_replace b with (a + (b - a) * 1)%Q at 2 by ring.
      apply Qplus_le_r. rewrite !(Qmult_comm (b - a)).
      now apply Qmult_le_compat_r. }
  assert (H1' : (p1 <= 1)%Q) by (apply Qle_trans with p2; assumption).
  assert (H0' : (0 <= p2)%Q) by (apply Qle_trans with p1; assumption).
  pose proof (V p1 H0 H1') as J1. pose proof (V p2 H0' H1) as J2.
  destruct (B p1 H0 H1') as [_ [U1 _]].
  destruct (B p2 H0' H1) as [L2 [_ [Hab2 _]]].
  assert (F12 : Qfloor (p1 * m) <= Qfloor (p2 * m))
    by (apply Qfloor_resp_le; now apply Qmult_le_compat_r).
  destruct (Z.eq_dec (Qfloor (p1 * m)) (Qfloor (p2 * m))) as [E|N].
  - rewrite E. apply Qplus_le_r.
    set (d := (nth _ s (0 # 1) - nth _ s (0 # 1))%Q).
    rewrite !(Qmult_comm d). apply Qmult_le_compat_r.
    + unfold Qminus. apply Qplus_le_l. now apply Qmult_le_compat_r.
    + unfold d, Qminus. now rewrite <- Qle_minus_iff.
  - eapply Qle_trans; [exact U1|]. eapply Qle_trans; [|exact L2].
    apply Nth. lia.
Qed.

Lemma edges_ascending x :
  x <> [] ->
  StronglySorted Qle (map (quantile (sort_values Qle_bool x)) (linspace01 5)).
Proof.
  intros N. rewrite linspace5. cbn [map].
  pose proof (sort_values_sorted Qle_bool Qle_bool_total Qle_bool_trans x)
    as Hs.
  pose proof (sorted_nonempty x N) as Hne.
  repeat constructor;
    apply (quantile_mono _ _ _ Hs Hne); unfold Qle; simpl; lia.
Qed.

Lemma qcut_bins_ascending x :
  x <> [] -> StronglySorted Qle (qcut_bins x 5).
Proof.
  intros N. destruct (bins_cases x) as [-> | ->].
  - now apply edges_ascending.
  - apply unique_sorted, edges_ascending, N.
Qed.

(** On ascending edges the scan counts all the edges below the value. *)
Lemma searchsorted_count bins v :
  StronglySorted Qle bins ->
  searchsorted_left bins v
  = List.length (filter (fun b => Qltb b v) bins).
Proof.
  induction 1 as [|b bins Hs IH Hb]; [reflexivity|]. simpl.
  destruct (Qltb b v) eqn:E; [simpl; now rewrite IH|].
  rewrite filter_none; [reflexivity|]. intros c Hc.
  apply not_true_iff_false. rewrite Qltb_lt. intros Hcv.
  apply not_true_iff_false in E. apply E, Qltb_lt.
  rewrite Forall_forall in Hb. eapply Qle_lt_trans; eauto.
Qed.

(** *** The column of one value *)

Lemma quantile_index (k m : Z) :
  0 <= k <= 5 -> 0 <= m -> 0 <= Qfloor ((k # 5) * inject_Z m) <= m.
Proof.
  intros Hk Hm. unfold Qfloor, Qmult, inject_Z. simpl Qnum. simpl Qden.
  change (Z.pos (5 * 1)) with 5. split.
  - apply Z.div_pos; nia.
  - apply Z.div_le_upper_bound; nia.
Qed.

Lemma quantile_const (s : list Q) (v : Q) (k : Z) :
  s <> [] -> (forall y, In y s -> (y == v)%Q) -> 0 <= k <= 5 ->
  (quantile s (k # 5) == v)%Q.
Proof.
  intros Hs Hv Hk. unfold quantile. cbv zeta.
  assert (Hn : (1 <= List.length s)%nat)
    by (destruct s; [congruence|simpl; lia]).
  pose proof (quantile_index k (Z.of_nat (List.length s) - 1) Hk
                ltac:(lia)) as Hj.
  set (j := Qfloor ((k # 5) * inject_Z (Z.of_nat (List.length s) - 1))) in *.
  set (a := nth (Z.to_nat j) s (0 # 1)).
  set (b := nth (Nat.min (Z.to_nat j + 1) (List.length s - 1)) s (0 # 1)).
  assert (Ha : (a == v)%Q) by (apply Hv, nth_In; lia).
  assert (Hb : (b == v)%Q) by (apply Hv, nth_In; lia).
  rewrite Ha, Hb. ring.
Qed.

Lemma not_varies x a b :
  ~ varies x -> In a x -> In b x -> (a == b)%Q.
Proof.
  intros N Ha Hb. destruct (Qeq_dec a b) as [E|E]; [exact E|].
  exfalso. apply N. now exists a, b.
Qed.

Lemma qcut_bins_constant x0 xs :
  ~ varies (x0 :: xs) ->
  exists e, qcut_bins (x0 :: xs) 5 = [e] /\ (e == x0)%Q.
Proof.
  intros N. set (x := x0 :: xs) in *.
  set (s := sort_values Qle_bool x).
  assert (Hs : s <> []) by (apply sorted_nonempty; discriminate).
  assert (Hv : forall y, In y s -> (y == x0)%Q).
  { intros y Hy. apply (proj1 (sort_values_In Qle_bool x y)) in Hy.
    apply (not_varies x); [exact N|exact Hy|now left]. }
  assert (Q : forall k, 0 <= k <= 5 -> (quantile s (k # 5) == x0)%Q)
    by (intros k Hk; now apply quantile_const).
  assert (U : unique Qeq_bool (map (quantile s) (linspace01 5))
              = [quantile s (0 # 5)]).
  { rewrite linspace5. cbn [map].
    apply (unique_all_equal Qeq_bool Qeq Qeq_bool_iff).
    intros y Hy. rewrite (Q 0) by lia.
    repeat (destruct Hy as [<-|Hy]; [apply Q; lia|]). destruct Hy. }
  exists (quantile s (0 # 5)). split; [|apply Q; lia].
  unfold qcut_bins. fold x. fold s. rewrite U. reflexivity.
Qed.

(** A column whose values are all equal has a single edge and no
    interval: every cell of the result is NaN. *)
Lemma qcut_constant x : ~ varies x -> Forall (eq SNaN) (qcut x 5).
Proof.
  intros N. destruct x as [|x0 xs]; [constructor|].
  destruct (qcut_bins_constant x0 xs N) as [e [Eb Ee]].
  unfold qcut. rewrite Eb.
  assert (I : forall v, In v (x0 :: xs) -> cut_id [e] v = 1%nat).
  { intros v Hv. unfold cut_id. cbn [hd].
    replace (Qeq_bool v e) with true; [reflexivity|].
    symmetry. apply Qeq_bool_iff. rewrite Ee.
    apply (not_varies (x0 :: xs)); [exact N|exact Hv|now left]. }
  assert (M : map (cut_id [e]) (x0 :: xs) = map (fun _ => 1%nat) (x0 :: xs))
    by (apply map_ext_in; exact I).
  rewrite M. cbn [map existsb is_na List.length Nat.eqb orb].
  rewrite Forall_forall. intros c [<-|Hc]; [reflexivity|].
  rewrite map_map in Hc. apply in_map_iff in Hc.
  destruct Hc as [v [<- _]]. reflexivity.
Qed.

(** Either way the column is uniform: all cells are bucket indexes or all
    cells are NaN. *)
Lemma qcut_cases x :
  Forall bucket_index (qcut x 5) \/ Forall (eq SNaN) (qcut x 5).
Proof.
  assert (D : varies x \/ ~ varies x).
  { induction x as [|a x IH].
    - right. intros [? [? [[] _]]].
    - destruct (Forall_dec (fun b => (a == b)%Q)
                  (fun b => Qeq_dec a b) x) as [F|F].
      + destruct IH as [[c [d [Hc [Hd Ncd]]]]|IH].
        * left. exists c, d. simpl. auto.
        * right. intros [c [d [Hc [Hd Ncd]]]]. apply Ncd.
          rewrite Forall_forall in F.
          destruct Hc as [<-|Hc]; destruct Hd as [<-|Hd].
          -- reflexivity.
          -- now apply F.
          -- symmetry. now apply F.
          -- apply (not_varies x); assumption.
      + left. apply Exists_Forall_neg in F;
          [|intros b; destruct (Qeq_dec a b); auto].
        apply Exists_exists in F. destruct F as [b [Hb Nab]].
        exists a, b. simpl. auto. }
  destruct D; [left; now apply qcut_varies|right; now apply qcut_constant].
Qed.

End QcutFacts.

(** ** The segmenter *)

Module SegmenterSpec.
Import Pandas Retail Segmenter Contract Samples ListFacts NumFacts QcutFacts.

Lemma qcut_length x q : List.length (qcut x q) = List.length x.
Proof.
  unfold qcut. destruct x as [|x0 xs]; [reflexivity|].
  destruct (existsb _ _); now rewrite !length_map.
Qed.

Lemma map_fst_combine {A B} (l : list A) (l' : list B) :
  List.length l = List.length l' -> map fst (combine l l') = l.
Proof.
  revert l'; induction l as [|a l IH]; intros [|b l'] H;
    simpl in *; try congruence. f_equal. apply IH. lia.
Qed.

Lemma map_snd_combine {A B} (l : list A) (l' : list B) :
  List.length l = List.length l' -> map snd (combine l l') = l'.
Proof.
  revert l'; induction l as [|a l IH]; intros [|b l'] H;
    simpl in *; try congruence. f_equal. apply IH. lia.
Qed.

(** *** The columns of the scored frame *)
Section Columns.
Variable t : list Rfm.

Let R := map (rsub 5) (bucket_R t).
Let F := map (fun s => add s 1) (bucket_F t).
Let M := map (fun s => add s 1) (bucket_M t).

Lemma lengths :
  List.length R = List.length t /\ List.length F = List.length t
  /\ List.length M = List.length t.
Proof.
  unfold R, F, M, bucket_R, bucket_F, bucket_M.
  rewrite !length_map, !qcut_length, !length_map. auto.
Qed.

Lemma with_scores_metrics : map metrics (with_scores t) = t.
Proof.
  destruct lengths as [LR [LF LM]].
  unfold with_scores. fold R F M. rewrite map_map.
  rewrite <- (map_fst_combine t (combine R (combine F M))) at 2
    by (rewrite !length_combine; lia).
  apply map_ext. now intros [a [r [f m]]].
Qed.

Lemma with_scores_R : map R_Score (with_scores t) = R.
Proof.
  destruct lengths as [LR [LF LM]].
  unfold with_scores. fold R F M. rewrite map_map.
  rewrite <- (map_fst_combine R (combine F M)) at 2
    by (rewrite !length_combine; lia).
  rewrite <- (map_snd_combine t (combine R (combine F M))) at 2
    by (rewrite !length_combine; lia).
  rewrite map_map. apply map_ext. now intros [a [r [f m]]].
Qed.

Lemma with_scores_F : map F_Score (with_scores t) = F.
Proof.
  destruct lengths as [LR [LF LM]].
  unfold with_scores. fold R F M. rewrite map_map.
  rewrite <- (map_fst_combine F M) at 2 by lia.
  rewrite <- (map_snd_combine R (combine F M)) at 2
    by (rewrite !length_combine; lia).
  rewrite <- (map_snd_combine t (combine R (combine F M))) at 2
    by (rewrite !length_combine; lia).
  rewrite !map_map. apply map_ext. now intros [a [r [f m]]].
Qed.

Lemma with_scores_M : map M_Score (with_scores t) = M.
Proof.
  destruct lengths as [LR [LF LM]].
  unfold with_scores. fold R F M. rewrite map_map.
  rewrite <- (map_snd_combine F M) at 2 by lia.
  rewrite <- (map_snd_combine R (combine F M)) at 2
    by (rewrite !length_combine; lia).
  rewrite <- (map_snd_combine t (combine R (combine F M))) at 2
    by (rewrite !length_combine; lia).
  rewrite !map_map. apply map_ext. now intros [a [r [f m]]].
Qed.

Lemma with_scores_composite sc :
  In sc (with_scores t) ->
  RFM_Score sc = rfm_score (R_Score sc) (F_Score sc) (M_Score sc).
Proof.
  unfold with_scores. rewrite in_map_iff.
  intros [[a [r [f m]]] [<- _]]. reflexivity.
Qed.

Lemma with_scores_nil : with_scores t = [] <-> t = [].
Proof.
  rewrite <- with_scores_metrics at 2.
  split; [intros ->; reflexivity|]. now destruct (with_scores t).
Qed.
End Columns.

(** *** The two outcomes of the script *)

Lemma compute_segments_cases df :
  (rfm df = [] /\ compute_segments df = Raise no_rows_error)
  \/ (rfm df <> [] /\
      compute_segments df = Ok (finish (with_scores (rfm df)))).
Proof.
  unfold compute_segments.
  destruct (with_scores (rfm df)) as [|sc t] eqn:E.
  - left. apply with_scores_nil in E. split; [exact E|reflexivity].
  - right. split.
    + intros N. apply with_scores_nil in N. congruence.
    + unfold apply_axis1, setitem. rewrite combine_map_same, map_map.
      reflexivity.
Qed.

Lemma compute_segments_Ok df out :
  compute_segments df = Ok out ->
  rfm df <> [] /\ out = finish (with_scores (rfm df)).
Proof.
  destruct (compute_segments_cases df) as [[_ E]|[N E]]; rewrite E;
    intros H; [discriminate|]. injection H as <-. auto.
Qed.

(** *** The aggregation *)

Lemma fold_max_spec t : forall x,
  In (fold_left Z.max t x) (x :: t)
  /\ forall y, In y (x :: t) -> y <= fold_left Z.max t x.
Proof.
  induction t as [|a t IH]; intros x; simpl.
  - split; [now left|]. intros y [->|[]]. lia.
  - destruct (IH (Z.max x a)) as [I B]. split.
    + destruct I as [I|I]; [|now right; right].
      rewrite <- I. destruct (Z.max_spec x a) as [[_ ->]|[_ ->]]; auto.
    + intros y Hy. assert (y <= Z.max x a \/ In y t) as [L|L].
      { destruct Hy as [->|[->|Hy]]; [left; lia|left; lia|now right]. }
      * etransitivity; [exact L|]. apply B. now left.
      * apply B. now right.
Qed.

Lemma series_max_spec s m :
  series_max s = Some m -> In m s /\ forall y, In y s -> y <= m.
Proof.
  destruct s as [|x t]; [discriminate|]. simpl. intros H. injection H as <-.
  apply fold_max_spec.
Qed.

Lemma series_max_some s : s <> [] -> exists m, series_max s = Some m.
Proof. destruct s; [congruence|]. simpl. eauto. Qed.

Lemma latest_of_max rows m :
  series_max (map (fun r => InvoiceDate (line r)) rows) = Some m ->
  latest_of rows m.
Proof.
  intros H. apply series_max_spec in H. destruct H as [I B]. split.
  - apply in_map_iff in I. destruct I as [r [E Hr]]. eauto.
  - intros r Hr. apply B. apply in_map_iff. eauto.
Qed.

Lemma latest_of_unique rows a b :
  latest_of rows a -> latest_of rows b -> a = b.
Proof.
  intros [[ra [Ia <-]] Ba] [[rb [Ib <-]] Bb].
  apply Z.le_antisymm; auto.
Qed.

Lemma get_group_rows_of c df :
  get_group Z.eqb (fun r => Retail.CustomerID (line r)) c df = rows_of c df.
Proof.
  unfold get_group, rows_of. apply filter_ext. intros r.
  destruct (Retail.CustomerID (line r)); [apply Z.eqb_sym|reflexivity].
Qed.

Lemma rows_of_In c df r :
  In r (rows_of c df) <-> In r df /\ Retail.CustomerID (line r) = Some c.
Proof.
  rewrite <- get_group_rows_of.
  apply (get_group_In Z.eqb (fun r => Retail.CustomerID (line r)) Z.eqb_eq).
Qed.

Lemma rfm_customers df :
  map CustomerID (rfm df)
  = group_keys Z.eqb Z.leb (fun r => Retail.CustomerID (line r)) df.
Proof.
  unfold rfm. destruct (snapshot_date df) eqn:E.
  - rewrite map_map, <- groupby_keys. apply map_ext. now intros [c g].
  - destruct df; [reflexivity|discriminate].
Qed.

Lemma rfm_customers_NoDup df : NoDup (map CustomerID (rfm df)).
Proof. rewrite rfm_customers. apply group_keys_NoDup, Z.eqb_eq. Qed.

Lemma rfm_customers_In df c :
  In c (map CustomerID (rfm df))
  <-> exists r, In r df /\ Retail.CustomerID (line r) = Some c.
Proof. rewrite rfm_customers. apply group_keys_In, Z.eqb_eq. Qed.

(** The records come in ascending order of customer identifier. *)
Lemma rfm_customers_ascending df :
  StronglySorted (fun a b => (a <=? b) = true) (map CustomerID (rfm df)).
Proof.
  rewrite rfm_customers. unfold group_keys. apply sort_values_sorted.
  - intros x y. rewrite Z.leb_gt, Z.leb_le. lia.
  - intros x y z. rewrite !Z.leb_le. lia.
Qed.

Lemma rfm_row df snapshot a :
  snapshot_date df = Some snapshot -> In a (rfm df) ->
  exists latest,
    latest_of (rows_of (CustomerID a) df) latest
    /\ Recency a = (snapshot - latest) / one_day
    /\ Frequency a = distinct_invoices (rows_of (CustomerID a) df)
    /\ Monetary a
       = to_float (sum_num (map SalesAmount (rows_of (CustomerID a) df))).
Proof.
  intros S. unfold rfm. rewrite S, in_map_iff. intros [[c g] [<- Hg]].
  apply (groupby_In Z.eqb Z.leb _ Z.eqb_eq) in Hg. simpl in Hg.
  destruct Hg as [_ [-> Hne]]. rewrite get_group_rows_of in *.
  unfold agg. simpl.
  destruct (series_max_some
              (map (fun r => InvoiceDate (line r)) (rows_of c df)))
    as [latest L].
  { intros E. apply map_eq_nil in E. contradiction. }
  exists latest. split; [now apply latest_of_max|].
  split; [unfold recency_days; now rewrite L|]. split.
  - unfold nunique, distinct_invoices. f_equal.
    apply unique_length_nodup. apply String.eqb_eq.
  - reflexivity.
Qed.

(** The monetary value of a customer against the sum of the customer's
    [SalesAmount] values. *)
Lemma monetary_total rows :
  ((to_float (sum_num (map SalesAmount rows)) == total_sales rows)%Q
   <-> sum_fits (map SalesAmount rows))
  /\ forall zs, as_int64 (map SalesAmount rows) = Some zs ->
       to_float (sum_num (map SalesAmount rows))
       = inject_Z (wrap64 (fold_right Z.add 0 zs)).
Proof.
  split.
  - unfold total_sales. rewrite <- (map_map SalesAmount to_float).
    apply sum_num_exact.
  - intros zs E. pose proof (sum_num_value (map SalesAmount rows)) as V.
    rewrite E in V. apply V.
Qed.

(** *** The segmentation rule *)

Lemma segment_label sc : segment sc = label_of (RFM_Score sc).
Proof.
  unfold segment, str_ge, label_of, cutoffs. cbn [find fst snd].
  destruct (String.leb "444" (RFM_Score sc)); [reflexivity|].
  destruct (String.leb "333" (RFM_Score sc)); [reflexivity|].
  destruct (String.leb "222" (RFM_Score sc)); reflexivity.
Qed.

(** C1. In every record the segmenter writes, the segment label is the
    label of the composite score string under the rule "first cutoff, in
    the order 444, 333, 222, that the string reaches in lexicographic
    order; Churn Risk when it reaches none": the label depends on the
    composite string alone. *)
Theorem segment_first_match (df : list CleanRow) (out : list Segmented)
    (r : Segmented) :
  compute_segments df = Ok out -> In r out ->
  Segment r = label_of (RFM_Score (scored r))
  /\ Segment r =
     (if String.leb "444" (RFM_Score (scored r)) then "Champions"
      else if String.leb "333" (RFM_Score (scored r)) then "Loyal Customers"
      else if String.leb "222" (RFM_Score (scored r)) then "Potential Loyalists"
      else "Churn Risk")%string.
Proof.
  intros H Hr. apply compute_segments_Ok in H. destruct H as [_ ->].
  unfold finish in Hr. apply in_map_iff in Hr. destruct Hr as [sc [<- _]].
  cbn [Segment scored]. split; [apply segment_label|reflexivity].
Qed.

Lemma segment_first_match_witness :
  compute_segments shop = Ok shop_segments
  /\ Forall (fun r => Segment r = label_of (RFM_Score (scored r)))
            shop_segments.
Proof.
  assert (H : compute_segments shop = Ok shop_segments)
    by (vm_compute; reflexivity).
  split; [exact H|]. apply Forall_forall. intros r Hr.
  exact (proj1 (segment_first_match shop shop_segments r H Hr)).
Defined.

(** *** The metrics *)

Lemma finish_customers t : map customer (finish (with_scores t)) = map CustomerID t.
Proof.
  unfold customer, finish. rewrite map_map. cbn [scored].
  rewrite <- (with_scores_metrics t) at 2. now rewrite map_map.
Qed.

Lemma finish_metrics t r :
  In r (finish (with_scores t)) -> In (metrics (scored r)) t.
Proof.
  unfold finish. rewrite in_map_iff. intros [sc [<- Hsc]]. cbn [scored].
  rewrite <- (with_scores_metrics t). now apply in_map.
Qed.





(** *** The outcome of a run *)




(** *** The scores *)

Lemma scores_from_buckets df out :
  compute_segments df = Ok out ->
  map (fun r => R_Score (scored r)) out = map (rsub 5) (bucket_R (rfm df))
  /\ map (fun r => F_Score (scored r)) out
     = map (fun b => add b 1) (bucket_F (rfm df))
  /\ map (fun r => M_Score (scored r)) out
     = map (fun b => add b 1) (bucket_M (rfm df)).
Proof.
  intros H. apply compute_segments_Ok in H. destruct H as [_ ->].
  unfold finish. rewrite !map_map. cbn [scored].
  rewrite <- with_scores_R, <- with_scores_F, <- with_scores_M. auto.
Qed.

Lemma SInt_inj a b : SInt a = SInt b <-> a = b.
Proof. split; [intros H; now injection H|now intros ->]. Qed.

Lemma score_of_bucket b :
  bucket_index b ->
  on_scale (rsub 5 b) /\ on_scale (add b 1)
  /\ (rsub 5 b = SInt 5 <-> b = SInt 0).
Proof.
  intros [k [-> Hk]]. cbn [rsub add]. split; [|split].
  - exists (5 - k). split; [reflexivity|lia].
  - exists (k + 1). split; [reflexivity|lia].
  - rewrite !SInt_inj. lia.
Qed.

Lemma recency_five_iff b : rsub 5 b = SInt 5 <-> b = SInt 0.
Proof.
  destruct b; cbn [rsub]; [rewrite !SInt_inj; lia| |];
    split; discriminate.
Qed.

(** When every metric takes two different values among the customers, all
    scores are on the 1 to 5 scale. *)
Lemma scores_on_scale df out r :
  metrics_vary (rfm df) -> compute_segments df = Ok out -> In r out ->
  on_scale (R_Score (scored r)) /\ on_scale (F_Score (scored r))
  /\ on_scale (M_Score (scored r)).
Proof.
  intros [VR [VF VM]] H Hr.
  destruct (scores_from_buckets df out H) as [ER [EF EM]].
  assert (G : forall (f : Score -> Score) col,
             (forall b, bucket_index b -> on_scale (f b)) ->
             Forall bucket_index col -> Forall on_scale (map f col)).
  { intros f col Hf Hcol. rewrite Forall_forall in *. intros c Hc.
    apply in_map_iff in Hc. destruct Hc as [b [<- Hb]]. auto. }
  assert (FR := G (rsub 5) _ (fun b Hb => proj1 (score_of_bucket b Hb))
                  (qcut_varies _ VR)).
  assert (FF := G (fun b => add b 1) _
                  (fun b Hb => proj1 (proj2 (score_of_bucket b Hb)))
                  (qcut_varies _ VF)).
  assert (FM := G (fun b => add b 1) _
                  (fun b Hb => proj1 (proj2 (score_of_bucket b Hb)))
                  (qcut_varies _ VM)).
  fold (bucket_R (rfm df)) in FR. fold (bucket_F (rfm df)) in FF.
  fold (bucket_M (rfm df)) in FM.
  rewrite <- ER in FR. rewrite <- EF in FF. rewrite <- EM in FM.
  rewrite Forall_forall in FR, FF, FM.
  repeat split; [apply FR|apply FF|apply FM];
    apply (in_map (fun r => _ (scored r))); exact Hr.
Qed.

(** A metric with the same value for every customer has no bucket: the
    score of that metric is NaN in every record. *)
Lemma constant_metric_scores df out r :
  compute_segments df = Ok out -> In r out ->
  (~ varies (map (fun a => inject_Z (Recency a)) (rfm df)) ->
   R_Score (scored r) = SNaN)
  /\ (~ varies (map (fun a => inject_Z (Frequency a)) (rfm df)) ->
      F_Score (scored r) = SNaN)
  /\ (~ varies (map Monetary (rfm df)) -> M_Score (scored r) = SNaN).
Proof.
  intros H Hr. destruct (scores_from_buckets df out H) as [ER [EF EM]].
  assert (G : forall (f : Score -> Score) (get : Segmented -> Score) col,
             f SNaN = SNaN -> map get out = map f (qcut col 5) ->
             ~ varies col -> get r = SNaN).
  { intros f get col Hf E N. pose proof (qcut_constant col N) as C.
    assert (I : In (get r) (map f (qcut col 5)))
      by (rewrite <- E; now apply in_map).
    apply in_map_iff in I. destruct I as [b [<- Hb]].
    rewrite Forall_forall in C. now rewrite <- (C b Hb). }
  repeat split; intros N.
  - exact (G (rsub 5) (fun r => R_Score (scored r)) _ eq_refl ER N).
  - exact (G (fun b => add b 1) (fun r => F_Score (scored r)) _ eq_refl EF N).
  - exact (G (fun b => add b 1) (fun r => M_Score (scored r)) _ eq_refl EM N).
Qed.

(** C2, at a single customer.  Each metric column holds one value, its
    quantile edges collapse to one edge, the bucket index is NaN and so
    are the three scores: they are not on the 1 to 5 scale. *)
Theorem lone_customer_scores :
  exists r,
    compute_segments lone = Ok [r]
    /\ bucket_R (rfm lone) = [SNaN]
    /\ bucket_F (rfm lone) = [SNaN]
    /\ bucket_M (rfm lone) = [SNaN]
    /\ R_Score (scored r) = SNaN
    /\ F_Score (scored r) = SNaN
    /\ M_Score (scored r) = SNaN
    /\ ~ on_scale (R_Score (scored r))
    /\ ~ on_scale (F_Score (scored r))
    /\ ~ on_scale (M_Score (scored r)).
Proof.
  eexists. split; [vm_compute; reflexivity|].
  repeat (split; [vm_compute; reflexivity|]).
  cbn [scored R_Score F_Score M_Score].
  repeat split; intros [k [E _]]; discriminate.
Qed.

(** *** The composite string *)

Lemma digit_cases k : 1 <= k <= 5 -> k = 1 \/ k = 2 \/ k = 3 \/ k = 4 \/ k = 5.
Proof. lia. Qed.

(** On three scores of the scale the composite string has three
    characters, and comparing it with a cutoff as strings is comparing the
    three digit numbers. *)
Lemma composite_of_digits r f m :
  on_scale r -> on_scale f -> on_scale m ->
  exists a b c,
    r = SInt a /\ f = SInt b /\ m = SInt c
    /\ String.length (rfm_score r f m) = 3%nat
    /\ str_ge (rfm_score r f m) "444" = (444 <=? three_digits a b c)
    /\ str_ge (rfm_score r f m) "333" = (333 <=? three_digits a b c)
    /\ str_ge (rfm_score r f m) "222" = (222 <=? three_digits a b c).
Proof.
  intros [a [-> Ha]] [b [-> Hb]] [c [-> Hc]]. exists a, b, c.
  do 3 (split; [reflexivity|]).
  destruct (digit_cases a Ha) as [->|[->|[->|[->| ->]]]];
  destruct (digit_cases b Hb) as [->|[->|[->|[->| ->]]]];
  destruct (digit_cases c Hc) as [->|[->|[->|[->| ->]]]];
  vm_compute; auto.
Qed.

Lemma composite_three_digits df out r :
  metrics_vary (rfm df) -> compute_segments df = Ok out -> In r out ->
  exists a b c,
    1 <= a <= 5 /\ 1 <= b <= 5 /\ 1 <= c <= 5
    /\ String.length (RFM_Score (scored r)) = 3%nat
    /\ (Segment r = "Champions"%string <-> 444 <= three_digits a b c).
Proof.
  intros V H Hr.
  destruct (scores_on_scale df out r V H Hr) as [SR [SF SM]].
  destruct (composite_of_digits _ _ _ SR SF SM)
    as [a [b [c [Ea [Eb [Ec [L [C4 _]]]]]]]].
  pose proof (compute_segments_Ok df out H) as [_ ->].
  unfold finish in Hr. apply in_map_iff in Hr. destruct Hr as [sc [<- Hsc]].
  cbn [scored Segment] in *. unfold segment.
  rewrite (with_scores_composite _ _ Hsc) in *.
  exists a, b, c.
  destruct SR as [a' [Ea' Ha]]. destruct SF as [b' [Eb' Hb]].
  destruct SM as [c' [Ec' Hc]].
  assert (a' = a) by congruence. assert (b' = b) by congruence.
  assert (c' = c) by congruence. subst a' b' c'.
  split; [exact Ha|]. split; [exact Hb|]. split; [exact Hc|].
  split; [exact L|].
  rewrite C4.
  destruct (444 <=? three_digits a b c) eqn:E.
  - apply Z.leb_le in E. tauto.
  - apply Z.leb_gt in E. split; [|lia].
    destruct (str_ge _ "333"); [discriminate|].
    destruct (str_ge _ "222"); discriminate.
Qed.

(** C10, at three customers with one invoice each.  The frequency column
    is constant, its score is NaN for every customer, and the composite
    strings have five characters; their comparison with the cutoffs is not
    a comparison of three digit numbers. *)
Theorem once_each_composite :
  exists out,
    compute_segments once_each = Ok out
    /\ map (fun r => F_Score (scored r)) out = [SNaN; SNaN; SNaN]
    /\ map (fun r => RFM_Score (scored r)) out
       = ["5nan3"; "3nan1"; "1nan5"]%string
    /\ map (fun r => String.length (RFM_Score (scored r))) out
       = [5; 5; 5]%nat
    /\ map Segment out
       = ["Champions"; "Loyal Customers"; "Churn Risk"]%string.
Proof.
  eexists. split; [vm_compute; reflexivity|].
  repeat split; vm_compute; reflexivity.
Qed.

End SegmenterSpec.

(** ** The basket miner *)

Module BasketMinerSpec.
Import Pandas Retail BasketMiner Contract Samples ListFacts NumFacts.

Lemma key_eqb_eq a b : key_eqb a b = true <-> a = b.
Proof.
  destruct a as [a1 a2], b as [b1 b2]. unfold key_eqb. simpl.
  rewrite andb_true_iff, !String.eqb_eq. split.
  - intros [-> ->]. reflexivity.
  - intros H. injection H as -> ->. auto.
Qed.

Lemma quantity_sums_eq df :
  quantity_sums df
  = map (fun k => (k, group_sum df k)) (group_keys key_eqb key_leb key_of df).
Proof. unfold quantity_sums, groupby. rewrite map_map. reflexivity. Qed.

Lemma keys_In df i d :
  In (i, d) (group_keys key_eqb key_leb key_of df)
  <-> exists r, In r df /\ InvoiceNo (line r) = i
                /\ Description (line r) = Some d.
Proof.
  rewrite (group_keys_In key_eqb key_leb key_of key_eqb_eq).
  unfold key_of. split; intros [r [Hr H]]; exists r; split; auto.
  - destruct (Description (line r)); [|discriminate].
    injection H as -> ->. auto.
  - destruct H as [-> ->]. reflexivity.
Qed.

Lemma group_sum_quantity_on df i d :
  group_sum df (i, d) = wrap64 (quantity_on i d df).
Proof.
  unfold group_sum, quantity_on. rewrite sum_int_total. do 3 f_equal.
  unfold get_group, key_of, key_eqb. apply filter_ext. intros r.
  destruct (Description (line r)) as [d'|]; simpl.
  - now rewrite (String.eqb_sym i), (String.eqb_sym d).
  - now rewrite andb_false_r.
Qed.

Lemma quantity_on_absent df i d :
  ~ In (i, d) (group_keys key_eqb key_leb key_of df) ->
  quantity_on i d df = 0.
Proof.
  intros N. unfold quantity_on. rewrite filter_none; [reflexivity|].
  intros r Hr. apply not_true_iff_false. intros E.
  apply andb_true_iff in E. destruct E as [Ei Ed].
  destruct (Description (line r)) as [d'|] eqn:D; [|discriminate].
  apply String.eqb_eq in Ei, Ed. subst d'. apply N, keys_In. eauto.
Qed.

(** Looking a key up in the grouped sums. *)
Lemma lookup_sums df k :
  lookup (quantity_sums df) k
  = if isin key_eqb k (group_keys key_eqb key_leb key_of df)
    then Some (group_sum df k) else None.
Proof.
  rewrite quantity_sums_eq. unfold lookup.
  induction (group_keys key_eqb key_leb key_of df) as [|k' ks IH];
    [reflexivity|].
  cbn [map find fst isin existsb].
  destruct (key_eqb k' k) eqn:E.
  - apply key_eqb_eq in E. subst k'.
    replace (key_eqb k k) with true by (symmetry; now apply key_eqb_eq).
    reflexivity.
  - replace (key_eqb k k') with false.
    + exact IH.
    + symmetry. apply not_true_iff_false. intros H.
      apply key_eqb_eq in H. subst k'.
      assert (key_eqb k k = true) by now apply key_eqb_eq. congruence.
Qed.

Lemma cell_value df i d :
  match lookup (quantity_sums df) (i, d) with
  | Some x => x
  | None => 0
  end = wrap64 (quantity_on i d df).
Proof.
  rewrite lookup_sums.
  destruct (isin key_eqb (i, d) _) eqn:E.
  - apply group_sum_quantity_on.
  - symmetry. rewrite quantity_on_absent; [reflexivity|]. intros H.
    assert (isin key_eqb (i, d) (group_keys key_eqb key_leb key_of df) = true);
      [|congruence].
    apply (isin_spec key_eqb eq key_eqb_eq). eauto.
Qed.

(** *** Labels and positions *)

Lemma get_loc_In l x :
  In x l -> exists n, get_loc l x = Some n /\ nth_error l n = Some x.
Proof.
  induction l as [|y l IH]; intros H; [destruct H|]. simpl.
  destruct (String.eqb y x) eqn:E.
  - apply String.eqb_eq in E. subst y. exists O. auto.
  - destruct H as [->|H]; [rewrite String.eqb_refl in E; discriminate|].
    destruct (IH H) as [n [G N]]. exists (S n). rewrite G. auto.
Qed.

Lemma level_labels (proj : key -> string) df x :
  In x (sort_values String.leb
          (unique String.eqb (map (fun e => proj (fst e)) (quantity_sums df))))
  <-> exists k, In k (group_keys key_eqb key_leb key_of df) /\ proj k = x.
Proof.
  rewrite sort_values_In, (unique_In String.eqb String.eqb_eq).
  rewrite quantity_sums_eq, map_map. cbn [fst]. rewrite in_map_iff.
  split; intros [k [H1 H2]]; exists k; auto.
Qed.

Lemma level_NoDup (proj : key -> string) df :
  NoDup (sort_values String.leb
           (unique String.eqb (map (fun e => proj (fst e)) (quantity_sums df)))).
Proof. apply sort_values_NoDup, (unique_NoDup String.eqb String.eqb_eq). Qed.

(** C7, as the code has it.  The incidence matrix has exactly one row for
    every distinct invoice identifier that has a line with a description,
    and exactly one column for every distinct description of the cleaned
    data: [groupby] leaves the lines without description out.  It is
    rectangular, and the cell of invoice [i] and item [d] is true if and
    only if the int64 sum of the quantities of the rows of invoice [i] and
    item [d], reduced to 64 bits, is more than zero; that is the sum of the
    quantities whenever it is in the range of int64. *)
Theorem basket_incidence (df : list CleanRow) :
  let b := basket df in
  NoDup (index b)
  /\ (forall i, In i (index b)
                <-> exists r, In r df /\ InvoiceNo (line r) = i
                              /\ Description (line r) <> None)
  /\ NoDup (columns b)
  /\ (forall d, In d (columns b)
                <-> exists r, In r df /\ Description (line r) = Some d)
  /\ List.length (values b) = List.length (index b)
  /\ Forall (fun cells => List.length cells = List.length (columns b))
            (values b)
  /\ forall i d, In i (index b) -> In d (columns b) ->
       exists cell, loc b i d = Some cell
                    /\ (cell = true <-> 0 < wrap64 (quantity_on i d df))
                    /\ (in_int64 (quantity_on i d df) ->
                        (cell = true <-> 0 < quantity_on i d df)).
Proof.
  intros b. unfold b, basket, frame_map, fillna, unstack.
  cbn [index columns values].
  set (idx := sort_values String.leb _).
  set (cols := sort_values String.leb _).
  split; [apply (level_NoDup fst)|]. split.
  { intros i. unfold idx. rewrite (level_labels fst). split.
    - intros [[i' d] [H <-]]. apply keys_In in H.
      destruct H as [r [Hr [Hi Hd]]]. exists r. rewrite Hd.
      split; [exact Hr|]. split; [exact Hi|discriminate].
    - intros [r [Hr [Hi Hd]]].
      destruct (Description (line r)) as [d|] eqn:D; [|congruence].
      exists (i, d). split; [|reflexivity]. apply keys_In. eauto. }
  split; [apply (level_NoDup snd)|]. split.
  { intros d. unfold cols. rewrite (level_labels snd). split.
    - intros [[i d'] [H <-]]. apply keys_In in H.
      destruct H as [r [Hr [_ Hd]]]. eauto.
    - intros [r [Hr Hd]]. exists (InvoiceNo (line r), d). split; [|reflexivity].
      apply keys_In. eauto. }
  split; [now rewrite !length_map|]. split.
  { rewrite Forall_forall. intros cells Hc.
    rewrite !map_map in Hc. apply in_map_iff in Hc.
    destruct Hc as [i [<- _]]. now rewrite !length_map. }
  intros i d Hi Hd. unfold loc. cbn [index columns values].
  destruct (get_loc_In idx i Hi) as [a [Ga Na]].
  destruct (get_loc_In cols d Hd) as [c [Gc Nc]].
  rewrite Ga, Gc, !map_map.
  rewrite (map_nth_error _ _ _ Na), !map_map.
  rewrite (map_nth_error _ _ _ Nc).
  eexists. split; [reflexivity|].
  rewrite cell_value. split; [apply Z.ltb_lt|].
  intros F. rewrite (wrap64_fits _ F). apply Z.ltb_lt.
Qed.

Lemma basket_incidence_witness :
  In "3"%string (index (basket shop))
  /\ In "TEA SET"%string (columns (basket shop))
  /\ loc (basket shop) "3" "TEA SET" = Some true
  /\ 0 < wrap64 (quantity_on "3" "TEA SET" shop).
Proof.
  assert (Hi : In "3"%string (index (basket shop)))
    by (vm_compute; do 2 right; left; reflexivity).
  assert (Hd : In "TEA SET"%string (columns (basket shop)))
    by (vm_compute; do 2 right; left; reflexivity).
  split; [exact Hi|]. split; [exact Hd|].
  destruct (basket_incidence shop) as [_ [_ [_ [_ [_ [_ H]]]]]].
  destruct (H _ _ Hi Hd) as [cell [L [C _]]].
  assert (E : loc (basket shop) "3" "TEA SET" = Some true)
    by (vm_compute; reflexivity).
  split; [exact E|]. apply C. congruence.
Defined.

(** C7, as stated, fails on the clean file of the two pallets and the
    unnamed line: invoice 536372 is in the data and has no row in the
    matrix, and the cell of invoice 536371 and the alarm clock is false
    although its quantities sum to [2 ^ 63]. *)
Lemma basket_drops_and_wraps :
  let b := basket wholesale in
  (exists r, In r wholesale /\ InvoiceNo (line r) = "536372"%string)
  /\ ~ In "536372"%string (index b)
  /\ In "536371"%string (index b)
  /\ In "ALARM CLOCK"%string (columns b)
  /\ loc b "536371" "ALARM CLOCK" = Some false
  /\ quantity_on "536371" "ALARM CLOCK" wholesale = 2 ^ 63.
Proof.
  intros b. split.
  { eexists. split; [do 2 right; left; reflexivity|reflexivity]. }
  split.
  { vm_compute. intros [H|[]]. discriminate. }
  split; [vm_compute; left; reflexivity|].
  split; [vm_compute; left; reflexivity|].
  split; reflexivity.
Qed.

End BasketMinerSpec.

(** ** The warehouse loader *)

Module LoaderSpec.
Import Pandas Retail Loader Contract Samples ListFacts.

Lemma customer_eqb_eq a b : customer_eqb a b = true <-> a = b.
Proof.
  destruct a as [[x|] a2], b as [[y|] b2]; unfold customer_eqb;
    cbn [fst snd]; rewrite andb_true_iff, String.eqb_eq, ?Z.eqb_eq;
    split; intros H.
  - destruct H; congruence.
  - split; congruence.
  - destruct H; discriminate.
  - discriminate.
  - destruct H; discriminate.
  - discriminate.
  - destruct H; congruence.
  - split; congruence.
Qed.

Lemma load_tables df db :
  dim_customer (load df db) = df_customers df
  /\ dim_product (load df db) = df_products df
  /\ fact_sales (load df db) = df_facts df.
Proof. unfold load. auto. Qed.

(** C9. After a load, from any prior state of the store, [dim_customer]
    has as many rows as the cleaned data has distinct (CustomerID, Country)
    pairs, and [fact_sales] has as many rows as the cleaned data. *)
Theorem load_row_counts (df : list CleanRow) (db : Database) :
  List.length (dim_customer (load df db))
  = List.length (distinct_customer_pairs df)
  /\ List.length (fact_sales (load df db)) = List.length df.
Proof.
  destruct (load_tables df db) as [-> [_ ->]]. split.
  - unfold df_customers, drop_duplicates, distinct_customer_pairs.
    rewrite length_map. apply unique_length_nodup, customer_eqb_eq.
  - unfold df_facts. apply length_map.
Qed.

End LoaderSpec.

(* ================================================================== *)
(** * Part III: further properties of the scripts *)
(* ================================================================== *)

(** ** The cleaner, continued *)

Module CleanerMore.
Import Pandas Retail Cleaner Contract Notions Samples ListFacts CleanerSpec.

Lemma filter_comm {A} (f g : A -> bool) (l : list A) :
  filter f (filter g l) = filter g (filter f l).
Proof.
  rewrite !filter_filter. apply filter_ext. intros a. apply andb_comm.
Qed.

(** Steps that are filters can be applied in any order. *)
Lemma apply_steps_perm (l l' : list (list Row -> list Row)) :
  Permutation l l' ->
  (forall step, In step l -> exists mask, forall d, step d = filter mask d) ->
  forall df, apply_steps l df = apply_steps l' df.
Proof.
  induction 1 as [|f l l' P IH|f g l|l l' l'' P1 IH1 P2 IH2]; intros F df.
  - reflexivity.
  - simpl. f_equal. apply IH. intros step Hs. apply F. now right.
  - simpl. destruct (F f) as [p Hp]; [right; now left|].
    destruct (F g) as [q Hq]; [now left|].
    rewrite !Hp, !Hq. apply filter_comm.
  - rewrite IH1 by assumption. apply IH2. intros step Hs. apply F.
    apply Permutation_in with l'; [now symmetry|exact Hs].
Qed.

(** X1. The four filters of steps 3 to 6 can run in any order: whatever
    the order, the script saves the same rows. *)
Theorem steps_any_order (order : list (list Row -> list Row)) (df : list Row) :
  Permutation order [step6; step5; step4; step3] ->
  step8 (step7 (apply_steps order df)) = clean df.
Proof.
  intros P. unfold clean. do 2 f_equal.
  change (step6 (step5 (step4 (step3 df))))
    with (apply_steps [step6; step5; step4; step3] df).
  apply apply_steps_perm; [exact P|].
  intros step Hs. apply (Permutation_in _ P) in Hs.
  each_row Hs ltac:(eexists; intros d; reflexivity).
Qed.

Lemma steps_any_order_witness :
  Permutation [step3; step6; step4; step5] [step6; step5; step4; step3]
  /\ step8 (step7 (step3 (step6 (step4 (step5 [sale; cancellation; anonymous])))))
     = clean [sale; cancellation; anonymous].
Proof.
  assert (P : Permutation [step3; step6; step4; step5]
                          [step6; step5; step4; step3]).
  { apply Permutation_trans with [step6; step3; step4; step5];
      [apply perm_swap|]. apply perm_skip.
    apply Permutation_trans with [step4; step3; step5];
      [apply perm_swap|].
    apply Permutation_trans with [step4; step5; step3];
      [apply perm_skip, perm_swap|]. apply perm_swap. }
  split; [exact P|].
  exact (steps_any_order _ [sale; cancellation; anonymous] P).
Defined.


End CleanerMore.

(** ** The diagnostic report *)

Module DiagnosticsSpec.
Import Pandas Retail Cleaner Contract Diagnostics Samples ListFacts CleanerSpec.

(** A row with one of the four counted defects is not kept. *)
Lemma defect_dropped (r : Row) :
  (((match CustomerID r with None => true | Some _ => false end
     || String.prefix "C" (InvoiceNo r))
    || (Quantity r <=? 0))
   || Qle_bool (to_float (UnitPrice r)) (0 # 1))%bool = true ->
  keep r = false.
Proof.
  unfold keep, Qltb. rewrite Z.ltb_antisym.
  destruct (CustomerID r), (String.prefix "C" (InvoiceNo r)),
    (Quantity r <=? 0), (Qle_bool (to_float (UnitPrice r)) (0 # 1));
    (reflexivity || discriminate).
Qed.

Lemma removal_accounting (raw : list Row) :
  let n := List.length raw in
  let k := List.length (filter keep raw) in
  let m := List.length
             (filter (fun r => match CustomerID r with
                               | None => true | Some _ => false end) raw) in
  let c := List.length (filter (fun r => String.prefix "C" (InvoiceNo r)) raw) in
  let q := List.length (filter (fun r => Quantity r <=? 0) raw) in
  let p := List.length
             (filter (fun r => Qle_bool (to_float (UnitPrice r)) (0 # 1)) raw) in
  (k <= n /\ m <= n - k /\ c <= n - k /\ q <= n - k /\ p <= n - k)%nat.
Proof.
  induction raw as [|a raw IH]; [simpl; lia|]. cbv zeta in *.
  pose proof (defect_dropped a) as D. cbn [filter List.length].
  destruct (keep a), (CustomerID a), (String.prefix "C" (InvoiceNo a)),
    (Quantity a <=? 0), (Qle_bool (to_float (UnitPrice a)) (0 # 1));
    try (specialize (D eq_refl); discriminate D); cbn [List.length]; lia.
Qed.

Lemma fold_min_spec t : forall x,
  In (fold_left Z.min t x) (x :: t)
  /\ forall y, In y (x :: t) -> fold_left Z.min t x <= y.
Proof.
  induction t as [|a t IH]; intros x; simpl.
  - split; [now left|]. intros y [->|[]]. lia.
  - destruct (IH (Z.min x a)) as [I B]. split.
    + destruct I as [I|I]; [|now right; right].
      rewrite <- I. destruct (Z.min_spec x a) as [[_ ->]|[_ ->]]; auto.
    + intros y Hy. assert (Z.min x a <= y \/ In y t) as [L|L].
      { destruct Hy as [->|[->|Hy]]; [left; lia|left; lia|now right]. }
      * etransitivity; [|exact L]. apply B. now left.
      * apply B. now right.
Qed.

Lemma series_min_spec s m :
  series_min s = Some m -> In m s /\ forall y, In y s -> m <= y.
Proof.
  destruct s as [|x t]; [discriminate|]. simpl. intros H. injection H as <-.
  apply fold_min_spec.
Qed.

Lemma series_min_some s : s <> [] -> exists m, series_min s = Some m.
Proof. destruct s; [congruence|]. simpl. eauto. Qed.

Lemma series_max_bounds s m :
  series_max s = Some m -> In m s /\ forall y, In y s -> y <= m.
Proof.
  destruct s as [|x t]; [discriminate|]. simpl. intros H. injection H as <-.
  revert x. induction t as [|a t IH]; intros x; simpl.
  - split; [now left|]. intros y [->|[]]. lia.
  - destruct (IH (Z.max x a)) as [I B]. split.
    + destruct I as [I|I]; [|now right; right].
      rewrite <- I. destruct (Z.max_spec x a) as [[_ ->]|[_ ->]]; auto.
    + intros y Hy. assert (y <= Z.max x a \/ In y t) as [L|L].
      { destruct Hy as [->|[->|Hy]]; [left; lia|left; lia|now right]. }
      * etransitivity; [exact L|]. apply B. now left.
      * apply B. now right.
Qed.

Section Report.
Variable round2 : Q -> Q.

(** X3. The report on a raw file and the file the cleaner made of it.  The
    script stops with a division by zero exactly when the raw file has no
    rows.  Otherwise every row that one of the four printed defect counts
    counts (missing customer, non-positive quantity, non-positive price,
    cancelled invoice) was removed: the number of removed rows is at least
    each of the four counts, and the four counts are zero when no row was
    removed. *)
Theorem report_accounts_for_removals (raw : list Row) :
  match stats round2 raw (clean raw) with
  | ZeroDivisionError => raw = []
  | Printed rep =>
      raw <> []
      /\ raw_rows rep = Z.of_nat (List.length raw)
      /\ clean_rows rep = Z.of_nat (List.length (clean raw))
      /\ let removed := raw_rows rep - clean_rows rep in
         0 <= removed
         /\ raw_missing_customer rep <= removed
         /\ raw_negative_qty rep <= removed
         /\ raw_nonpositive_price rep <= removed
         /\ raw_cancelled rep <= removed
         /\ (removed = 0 ->
             raw_missing_customer rep = 0 /\ raw_negative_qty rep = 0
             /\ raw_nonpositive_price rep = 0 /\ raw_cancelled rep = 0)
  end.
Proof.
  unfold stats. destruct (Z.of_nat (List.length raw) =? 0) eqn:E.
  - apply Z.eqb_eq in E. destruct raw; [reflexivity|simpl in E; lia].
  - apply Z.eqb_neq in E. cbn [raw_rows clean_rows raw_missing_customer
      raw_negative_qty raw_nonpositive_price raw_cancelled].
    split; [intros ->; now apply E|]. split; [reflexivity|].
    split; [reflexivity|]. cbv zeta.
    rewrite clean_eq, length_map. unfold count.
    pose proof (removal_accounting raw) as A. cbv zeta in A. lia.
Qed.

(** X4. When the report prints a date range for the cleaned file, it
    prints one for the raw file too, and the cleaned range lies within the
    raw range. *)
Theorem clean_dates_within_raw (raw : list Row) (rep : Report) (lo hi : Z) :
  stats round2 raw (clean raw) = Printed rep ->
  clean_date_range rep = (Some lo, Some hi) ->
  exists raw_lo raw_hi,
    raw_date_range rep = (Some raw_lo, Some raw_hi)
    /\ raw_lo <= lo /\ lo <= hi /\ hi <= raw_hi.
Proof.
  unfold stats. destruct (Z.of_nat (List.length raw) =? 0) eqn:E;
    [discriminate|]. intros H. injection H as <-.
  cbn [clean_date_range raw_date_range]. intros R. injection R as Hlo Hhi.
  apply series_min_spec in Hlo. apply series_max_bounds in Hhi.
  destruct Hlo as [Ilo Blo]. destruct Hhi as [Ihi Bhi].
  assert (Sub : forall t, In t (map (fun r => InvoiceDate (line r)) (clean raw))
                          -> In t (map InvoiceDate raw)).
  { intros t Ht. rewrite <- map_map, clean_lines in Ht.
    apply in_map_iff in Ht. destruct Ht as [r [<- Hr]].
    apply filter_In in Hr. apply in_map. tauto. }
  assert (N : map InvoiceDate raw <> []).
  { intros N. apply Sub in Ilo. rewrite N in Ilo. destruct Ilo. }
  destruct (series_min_some _ N) as [raw_lo Mlo].
  destruct (SegmenterSpec.series_max_some _ N) as [raw_hi Mhi].
  exists raw_lo, raw_hi. rewrite Mlo, Mhi. split; [reflexivity|].
  apply series_min_spec in Mlo. apply series_max_bounds in Mhi.
  destruct Mlo as [_ Brlo]. destruct Mhi as [_ Brhi].
  split; [apply Brlo, Sub, Ilo|]. split; [apply Blo, Ihi|].
  apply Brhi, Sub, Ihi.
Qed.
End Report.

Lemma clean_dates_within_raw_witness :
  exists rep,
    stats (fun x => x) [anonymous; sale; cancellation]
          (clean [anonymous; sale; cancellation]) = Printed rep
    /\ clean_date_range rep
       = (Some 1291192800000000000, Some 1291192800000000000)
    /\ raw_date_range rep
       = (Some 1291192800000000000, Some 1291202400000000000).
Proof.
  eexists. split; [reflexivity|]. split; [reflexivity|].
  destruct (clean_dates_within_raw (fun x => x)
              [anonymous; sale; cancellation] _ _ _ eq_refl eq_refl)
    as [raw_lo [raw_hi [R _]]].
  reflexivity.
Defined.

End DiagnosticsSpec.

(** ** The segmenter, continued *)

Module SegmenterMore.
Import Pandas Retail Segmenter Contract Notions Samples ListFacts QcutFacts.
Import CleanerSpec SegmenterSpec MoreSamples.
Import Cleaner(clean).

(** *** Row by row *)

Lemma qcut_map x q : qcut x q = map (qcut_cell x q) x.
Proof.
  unfold qcut, qcut_cell. destruct x as [|x0 xs] eqn:E; [reflexivity|].
  rewrite <- E. destruct (existsb _ _); rewrite map_map; reflexivity.
Qed.

Lemma combine3_map {A B C D} (f : A -> B) (g : A -> C) (h : A -> D) t :
  combine t (combine (map f t) (combine (map g t) (map h t)))
  = map (fun a => (a, (f a, (g a, h a)))) t.
Proof. induction t; simpl; congruence. Qed.

Lemma with_scores_rows t :
  with_scores t
  = map (fun a => mkScored a (score_R t a) (score_F t a) (score_M t a)
                    (rfm_score (score_R t a) (score_F t a) (score_M t a))) t.
Proof.
  unfold with_scores, bucket_R, bucket_F, bucket_M.
  rewrite !qcut_map, !map_map.
  rewrite (combine3_map
             (fun a => rsub 5 (qcut_cell (recency_column t) 5 (inject_Z (Recency a))))
             (fun a => add (qcut_cell (frequency_column t) 5 (inject_Z (Frequency a))) 1)
             (fun a => add (qcut_cell (monetary_column t) 5 (Monetary a)) 1)).
  rewrite map_map. reflexivity.
Qed.

Lemma output_row df out r :
  compute_segments df = Ok out -> In r out ->
  exists a,
    In a (rfm df)
    /\ r = mkSegmented
             (mkScored a (score_R (rfm df) a) (score_F (rfm df) a)
                       (score_M (rfm df) a)
                       (rfm_score (score_R (rfm df) a) (score_F (rfm df) a)
                                  (score_M (rfm df) a)))
             (segment
                (mkScored a (score_R (rfm df) a) (score_F (rfm df) a)
                          (score_M (rfm df) a)
                          (rfm_score (score_R (rfm df) a) (score_F (rfm df) a)
                                     (score_M (rfm df) a)))).
Proof.
  intros H Hr. apply compute_segments_Ok in H. destruct H as [_ ->].
  unfold finish in Hr. rewrite with_scores_rows, map_map in Hr.
  apply in_map_iff in Hr. destruct Hr as [a [<- Ha]]. eauto.
Qed.

(** *** Cells of a column that varies *)

Lemma cell_varies x v :
  varies x -> In v x ->
  qcut_cell x 5 v = SInt (Z.of_nat (cut_id (qcut_bins x 5) v) - 1)
  /\ (1 <= cut_id (qcut_bins x 5) v <= 5)%nat.
Proof.
  intros V Hv. assert (N : x <> []) by (intros ->; destruct Hv).
  assert (R : forall w, In w x ->
              (1 <= cut_id (qcut_bins x 5) w
               <= List.length (qcut_bins x 5) - 1)%nat)
    by (intros w Hw; now apply cut_id_range).
  pose proof (bins_length x) as L6. unfold qcut_cell.
  replace (existsb (is_na (qcut_bins x 5)) (map (cut_id (qcut_bins x 5)) x))
    with false.
  - split; [reflexivity|]. specialize (R v Hv). lia.
  - symmetry. apply not_true_iff_false. rewrite existsb_exists.
    intros [id [Hid Hna]]. apply in_map_iff in Hid.
    destruct Hid as [w [<- Hw]]. specialize (R w Hw).
    unfold is_na in Hna. apply orb_true_iff in Hna.
    destruct Hna as [Hna|Hna]; apply Nat.eqb_eq in Hna; lia.
Qed.

Lemma searchsorted_mono bins v w :
  (v <= w)%Q -> (searchsorted_left bins v <= searchsorted_left bins w)%nat.
Proof.
  intros L. induction bins as [|b bins IH]; [reflexivity|]. simpl.
  destruct (Qltb b v) eqn:E; [|lia].
  apply Qltb_lt in E. replace (Qltb b w) with true; [lia|].
  symmetry. apply Qltb_lt. eapply Qlt_le_trans; eauto.
Qed.

Lemma cut_id_mono x v w :
  varies x -> In v x -> In w x -> (v <= w)%Q ->
  (cut_id (qcut_bins x 5) v <= cut_id (qcut_bins x 5) w)%nat.
Proof.
  intros V Hv Hw L. assert (N : x <> []) by (intros ->; destruct Hv).
  pose proof (cut_id_range x N w V Hw) as Rw. unfold cut_id in *.
  destruct (Qeq_bool v (hd (0 # 1) (qcut_bins x 5))) eqn:Ev; [lia|].
  destruct (Qeq_bool w (hd (0 # 1) (qcut_bins x 5))) eqn:Ew.
  - exfalso. apply Qeq_bool_neq in Ev. apply Ev.
    apply Qeq_bool_iff in Ew. rewrite (bins_hd x) in *.
    apply Qle_antisym; [now rewrite <- Ew|now apply lo_le].
  - now apply searchsorted_mono.
Qed.

Lemma cut_id_lowest x v :
  In v x -> (forall w, In w x -> (v <= w)%Q) ->
  cut_id (qcut_bins x 5) v = 1%nat.
Proof.
  intros Hv Low. assert (N : x <> []) by (intros ->; destruct Hv).
  unfold cut_id. replace (Qeq_bool v (hd (0 # 1) (qcut_bins x 5))) with true;
    [reflexivity|].
  symmetry. apply Qeq_bool_iff. rewrite (bins_hd x).
  apply Qle_antisym; [apply Low, lo_In, N|now apply lo_le].
Qed.

(** *** The metrics *)

(** X5. Recency is never below one day, and it is exactly one day for the
    customers whose latest purchase is less than a day before the latest
    purchase of the whole file, so for whoever bought last. *)
Theorem recency_at_least_one (df : list CleanRow) (out : list Segmented)
    (r : Segmented) (latest latest_c : Z) :
  compute_segments df = Ok out -> In r out ->
  latest_of df latest -> latest_of (rows_of (customer r) df) latest_c ->
  1 <= Recency (metrics (scored r))
  /\ (Recency (metrics (scored r)) = 1 <-> latest - latest_c < one_day).
Proof.
  intros H Hr L Lc. pose proof (compute_segments_Ok df out H) as [_ E].
  subst out. apply finish_metrics in Hr.
  destruct (series_max_some (map (fun x => InvoiceDate (line x)) df))
    as [m M].
  { intros N. apply map_eq_nil in N. subst df. destruct L as [[x [[] _]] _]. }
  assert (S : snapshot_date df = Some (m + one_day))
    by (unfold snapshot_date; now rewrite M).
  apply latest_of_max in M. rewrite (latest_of_unique df _ _ L M) in *.
  destruct (rfm_row df _ _ S Hr) as [lc [Lc' [-> _]]].
  unfold customer in Lc. rewrite (latest_of_unique _ _ _ Lc Lc') in *.
  assert (B : lc <= m).
  { destruct Lc' as [[x [Hx <-]] _]. apply rows_of_In in Hx.
    destruct M as [_ B]. apply B. tauto. }
  assert (D : 0 < one_day) by reflexivity.
  split.
  - apply Z.div_le_lower_bound; lia.
  - split; intros G.
    + pose proof (Z.mul_div_le (m + one_day - lc) one_day D).
      pose proof (Z.mod_pos_bound (m + one_day - lc) one_day D).
      pose proof (Z.div_mod (m + one_day - lc) one_day). lia.
    + apply Z.le_antisymm; [|apply Z.div_le_lower_bound; lia].
      apply Z.lt_succ_r. apply Z.div_lt_upper_bound; lia.
Qed.

Lemma shop_last_record :
  exists r, In r shop_segments /\ customer r = 6.
Proof.
  unfold shop_segments. eexists. split; [do 5 right; left; reflexivity|].
  reflexivity.
Qed.

Lemma recency_at_least_one_witness :
  exists r,
    compute_segments shop = Ok shop_segments /\ In r shop_segments
    /\ latest_of shop (15 * one_day)
    /\ latest_of (rows_of (customer r) shop) (15 * one_day)
    /\ Recency (metrics (scored r)) = 1.
Proof.
  destruct shop_last_record as [r [Hr Hc]]. exists r.
  assert (H : compute_segments shop = Ok shop_segments)
    by (vm_compute; reflexivity).
  assert (L : latest_of shop (15 * one_day)).
  { split; [eexists; split; [do 6 right; left; reflexivity|reflexivity]|].
    intros x Hx. each_row Hx ltac:(vm_compute; discriminate). }
  assert (Lc : latest_of (rows_of (customer r) shop) (15 * one_day)).
  { rewrite Hc. split; [eexists; split; [left; reflexivity|reflexivity]|].
    intros x Hx. each_row Hx ltac:(vm_compute; discriminate). }
  repeat (split; [assumption|]).
  apply (recency_at_least_one shop shop_segments r _ _ H Hr L Lc).
  rewrite Z.sub_diag. reflexivity.
Defined.

Lemma nodup_length_le {A} (dec : forall x y : A, {x = y} + {x <> y}) l :
  (List.length (nodup dec l) <= List.length l)%nat.
Proof.
  induction l as [|a l IH]; [reflexivity|]. simpl.
  destruct (in_dec dec a l); simpl; lia.
Qed.

Lemma total_sales_positive rows :
  rows <> [] -> (forall x, In x rows -> (0 < to_float (SalesAmount x))%Q) ->
  (0 < total_sales rows)%Q.
Proof.
  unfold total_sales. induction rows as [|x rows IH]; [congruence|].
  intros _ P. simpl. destruct rows as [|y rows].
  - simpl. rewrite Qplus_0_r. apply P. now left.
  - apply Qlt_le_trans with (to_float (SalesAmount x) + 0)%Q.
    + rewrite Qplus_0_r. apply P. now left.
    + apply Qplus_le_r, Qlt_le_weak, IH; [discriminate|].
      intros z Hz. apply P. now right.
Qed.

Lemma clean_row x raw :
  In x (clean raw) <->
  exists y, In y raw /\ retained y
            /\ x = mkClean y (mul (I64 (Quantity y)) (UnitPrice y)).
Proof.
  rewrite clean_eq, in_map_iff. split.
  - intros [y [<- Hy]]. apply filter_In in Hy. destruct Hy as [Hy K].
    exists y. rewrite <- keep_retained. auto.
  - intros [y [Hy [K ->]]]. exists y. split; [reflexivity|].
    apply filter_In. rewrite keep_retained. auto.
Qed.

(** X6. On the file the cleaner wrote, every customer record of the
    segmenter belongs to a customer of a retained raw row, and counts at
    least one invoice and at most as many invoices as the customer has
    rows.  Its monetary value is positive when no int64 arithmetic
    overflows on the customer's rows: the prices are floats, or the
    products of quantity and price and their sum are in the range of
    int64. *)
Theorem segments_of_cleaned (raw : list Row) (out : list Segmented)
    (r : Segmented) :
  compute_segments (clean raw) = Ok out -> In r out ->
  let rows := rows_of (customer r) (clean raw) in
  (exists x, In x raw /\ retained x
             /\ Retail.CustomerID x = Some (customer r))
  /\ 1 <= Frequency (metrics (scored r)) <= Z.of_nat (List.length rows)
  /\ ((forall x, In x rows -> product_fits (line x)) ->
      sum_fits (map SalesAmount rows) ->
      (0 < Monetary (metrics (scored r)))%Q).
Proof.
  intros H Hr rows.
  pose proof (compute_segments_Ok _ out H) as [_ E]. subst out.
  assert (Hc : In (customer r) (map CustomerID (rfm (clean raw))))
    by (rewrite <- finish_customers; now apply in_map).
  apply finish_metrics in Hr.
  apply rfm_customers_In in Hc. destruct Hc as [x [Hx Cx]].
  destruct (series_max_some (map (fun x => InvoiceDate (line x)) (clean raw)))
    as [m M].
  { intros N. apply map_eq_nil in N. rewrite N in Hx. destruct Hx. }
  assert (S : snapshot_date (clean raw) = Some (m + one_day))
    by (unfold snapshot_date; now rewrite M).
  destruct (rfm_row _ _ _ S Hr) as [lc [_ [_ [F Mo]]]].
  fold (customer r) in F, Mo. fold rows in F, Mo.
  assert (Rows : In x rows) by (apply rows_of_In; auto).
  split; [|split].
  - apply clean_row in Hx. destruct Hx as [y [Hy [K ->]]].
    exists y. auto.
  - rewrite F. unfold distinct_invoices. split.
    + destruct (nodup string_dec _) as [|i l] eqn:N; [|simpl; lia].
      exfalso. assert (I : In (InvoiceNo (line x))
                              (nodup string_dec
                                 (map (fun r0 => InvoiceNo (line r0)) rows)))
        by (apply nodup_In, in_map_iff; eauto).
      rewrite N in I. destruct I.
    + apply inj_le. etransitivity; [apply nodup_length_le|].
      now rewrite length_map.
  - intros Fits Sum. rewrite Mo.
    rewrite (proj2 (proj1 (monetary_total rows)) Sum).
    apply total_sales_positive.
    + intros N. rewrite N in Rows. destruct Rows.
    + intros z Hz. pose proof (Fits z Hz) as Fz.
      apply rows_of_In in Hz. destruct Hz as [Hz _].
      apply clean_row in Hz. destruct Hz as [y [_ [[_ [_ [Q P]]] ->]]].
      cbn [line SalesAmount] in *.
      rewrite (proj2 (mul_exact (Quantity y) (UnitPrice y)) Fz).
      apply Qmult_lt_0_compat; [|exact P]. unfold Qlt. simpl. lia.
Qed.

Lemma segments_of_cleaned_witness :
  exists r,
    compute_segments (clean [sale; cancellation; anonymous]) = Ok [r]
    /\ In r [r]
    /\ customer r = 17850
    /\ (0 < Monetary (metrics (scored r)))%Q.
Proof.
  eexists. split; [vm_compute; reflexivity|].
  split; [now left|]. split; [reflexivity|].
  lazymatch goal with
  | |- (0 < Monetary (metrics (scored ?r)))%Q =>
      refine (proj2 (proj2 (segments_of_cleaned [sale; cancellation; anonymous]
                              [r] r ltac:(vm_compute; reflexivity)
                              (or_introl eq_refl))) _ _)
  end.
  - intros x Hx. vm_compute in Hx. destruct Hx as [<-|[]]. exact I.
  - exact I.
Defined.


(** *** The order of the records *)

Lemma ascending_strict l :
  StronglySorted (fun a b => (a <=? b) = true) l -> NoDup l ->
  StronglySorted Z.lt l.
Proof.
  induction 1 as [|a l Hl IH Ha]; intros D; [constructor|].
  inversion D as [|? ? Na Dl]; subst. constructor; [now apply IH|].
  rewrite Forall_forall in *. intros b Hb. specialize (Ha b Hb).
  apply Z.leb_le in Ha. assert (a <> b) by (intros ->; contradiction). lia.
Qed.

(** X8. The segmenter writes its records in strictly ascending order of
    customer identifier, as many records as the cleaned data has distinct
    customer identifiers. *)
Theorem records_ascending (df : list CleanRow) (out : list Segmented) :
  compute_segments df = Ok out ->
  StronglySorted Z.lt (map customer out)
  /\ List.length out
     = List.length
         (nodup Z.eq_dec (dropna (map (fun x => Retail.CustomerID (line x)) df))).
Proof.
  intros H. pose proof (compute_segments_Ok df out H) as [_ ->].
  rewrite <- (length_map customer), finish_customers. split.
  - apply ascending_strict;
      [apply rfm_customers_ascending|apply rfm_customers_NoDup].
  - rewrite rfm_customers. unfold group_keys.
    rewrite sort_values_length. apply unique_length_nodup, Z.eqb_eq.
Qed.

Lemma records_ascending_witness :
  compute_segments shop = Ok shop_segments
  /\ map customer shop_segments = [1; 2; 3; 4; 5; 6]
  /\ StronglySorted Z.lt (map customer shop_segments).
Proof.
  assert (H : compute_segments shop = Ok shop_segments)
    by (vm_compute; reflexivity).
  split; [exact H|]. split; [reflexivity|].
  exact (proj1 (records_ascending shop shop_segments H)).
Defined.

(** *** Scores and metrics *)

Lemma cells_ordered x v w :
  varies x -> In v x -> In w x -> (v <= w)%Q ->
  exists i j, qcut_cell x 5 v = SInt i /\ qcut_cell x 5 w = SInt j
              /\ 0 <= i /\ i <= j /\ j <= 4.
Proof.
  intros V Hv Hw L.
  destruct (cell_varies x v V Hv) as [Ev Rv].
  destruct (cell_varies x w V Hw) as [Ew Rw].
  pose proof (cut_id_mono x v w V Hv Hw L).
  eexists. eexists. split; [exact Ev|]. split; [exact Ew|]. lia.
Qed.

(** X9. Scores follow the metrics.  Among the customers of one run, when
    recency takes two different values, a customer with a smaller or equal
    recency never has a lower recency score; when frequency (monetary) takes
    two different values, a customer with a smaller or equal frequency
    (monetary) never has a higher frequency (monetary) score. *)
Theorem scores_follow_metrics (df : list CleanRow) (out : list Segmented)
    (r1 r2 : Segmented) :
  compute_segments df = Ok out -> In r1 out -> In r2 out ->
  (varies (recency_column (rfm df)) ->
   Recency (metrics (scored r1)) <= Recency (metrics (scored r2)) ->
   exists a b, R_Score (scored r1) = SInt a /\ R_Score (scored r2) = SInt b
               /\ b <= a)
  /\ (varies (frequency_column (rfm df)) ->
      Frequency (metrics (scored r1)) <= Frequency (metrics (scored r2)) ->
      exists a b, F_Score (scored r1) = SInt a /\ F_Score (scored r2) = SInt b
                  /\ a <= b)
  /\ (varies (monetary_column (rfm df)) ->
      (Monetary (metrics (scored r1)) <= Monetary (metrics (scored r2)))%Q ->
      exists a b, M_Score (scored r1) = SInt a /\ M_Score (scored r2) = SInt b
                  /\ a <= b).
Proof.
  intros H H1 H2.
  destruct (output_row df out r1 H H1) as [a1 [I1 ->]].
  destruct (output_row df out r2 H H2) as [a2 [I2 ->]].
  cbn [scored metrics R_Score F_Score M_Score].
  unfold score_R, score_F, score_M. split; [|split]; intros V L.
  - destruct (cells_ordered _ (inject_Z (Recency a1)) (inject_Z (Recency a2)) V)
      as [i [j [-> [-> B]]]];
      [apply (in_map (fun a => inject_Z (Recency a))); assumption ..
      |now rewrite <- Zle_Qle|].
    cbn [rsub]. eexists. eexists. split; [reflexivity|].
    split; [reflexivity|]. lia.
  - destruct (cells_ordered _ (inject_Z (Frequency a1))
                (inject_Z (Frequency a2)) V) as [i [j [-> [-> B]]]];
      [apply (in_map (fun a => inject_Z (Frequency a))); assumption ..
      |now rewrite <- Zle_Qle|].
    cbn [add]. eexists. eexists. split; [reflexivity|].
    split; [reflexivity|]. lia.
  - destruct (cells_ordered _ (Monetary a1) (Monetary a2) V)
      as [i [j [-> [-> B]]]];
      [apply (in_map Monetary); assumption ..|exact L|].
    cbn [add]. eexists. eexists. split; [reflexivity|].
    split; [reflexivity|]. lia.
Qed.

Lemma shop_first_record :
  exists r, In r shop_segments /\ customer r = 1.
Proof.
  unfold shop_segments. eexists. split; [left; reflexivity|]. reflexivity.
Qed.

Lemma shop_recency_varies : varies (recency_column (rfm shop)).
Proof.
  exists (inject_Z 6), (inject_Z 1).
  split; [vm_compute; left; reflexivity|].
  split; [vm_compute; do 5 right; left; reflexivity|]. discriminate.
Qed.

Lemma scores_follow_metrics_witness :
  exists r1 r2 a b,
    compute_segments shop = Ok shop_segments
    /\ In r1 shop_segments /\ In r2 shop_segments
    /\ Recency (metrics (scored r1)) <= Recency (metrics (scored r2))
    /\ R_Score (scored r1) = SInt a /\ R_Score (scored r2) = SInt b
    /\ b <= a.
Proof.
  destruct shop_last_record as [r1 [H1 C1]].
  destruct shop_first_record as [r2 [H2 C2]].
  assert (H : compute_segments shop = Ok shop_segments)
    by (vm_compute; reflexivity).
  assert (L : Recency (metrics (scored r1)) <= Recency (metrics (scored r2))).
  { revert C1 C2. unfold shop_segments in H1, H2.
    each_row H1 ltac:(each_row H2 ltac:(vm_compute; intros; congruence)). }
  destruct (proj1 (scores_follow_metrics shop shop_segments r1 r2 H H1 H2)
              shop_recency_varies L) as [a [b [Ea [Eb Le]]]].
  exists r1, r2, a, b. auto 10.
Defined.

Lemma output_covers df out a :
  compute_segments df = Ok out -> In a (rfm df) ->
  exists r, In r out /\ metrics (scored r) = a.
Proof.
  intros H Ha. pose proof (compute_segments_Ok df out H) as [_ ->].
  rewrite <- (with_scores_metrics (rfm df)) in Ha.
  apply in_map_iff in Ha. destruct Ha as [sc [<- Hsc]].
  exists (mkSegmented sc (segment sc)). split; [|reflexivity].
  unfold finish. apply in_map_iff. eauto.
Qed.

Lemma lowest_cell x v :
  varies x -> In v x -> (forall w, In w x -> (v <= w)%Q) ->
  qcut_cell x 5 v = SInt 0.
Proof.
  intros V Hv Low. destruct (cell_varies x v V Hv) as [-> _].
  now rewrite (cut_id_lowest x v Hv Low).
Qed.

(** X10. The lowest value of a metric always lands in the first bucket:
    when recency takes two different values, the customers with the
    smallest recency have recency score 5; when frequency (monetary) takes
    two different values, the customers with the smallest frequency
    (monetary) have frequency (monetary) score 1. *)
Theorem lowest_value_scores (df : list CleanRow) (out : list Segmented)
    (r : Segmented) :
  compute_segments df = Ok out -> In r out ->
  (varies (recency_column (rfm df)) ->
   (forall r', In r' out ->
      Recency (metrics (scored r)) <= Recency (metrics (scored r'))) ->
   R_Score (scored r) = SInt 5)
  /\ (varies (frequency_column (rfm df)) ->
      (forall r', In r' out ->
         Frequency (metrics (scored r)) <= Frequency (metrics (scored r'))) ->
      F_Score (scored r) = SInt 1)
  /\ (varies (monetary_column (rfm df)) ->
      (forall r', In r' out ->
         (Monetary (metrics (scored r)) <= Monetary (metrics (scored r')))%Q) ->
      M_Score (scored r) = SInt 1).
Proof.
  intros H Hr. destruct (output_row df out r H Hr) as [a [Ia E]].
  assert (Ea : metrics (scored r) = a) by (rewrite E; reflexivity).
  rewrite Ea. rewrite E at 1 2 3. cbn [scored R_Score F_Score M_Score].
  unfold score_R, score_F, score_M. split; [|split]; intros V Low.
  - rewrite lowest_cell; [reflexivity|exact V| |].
    + now apply (in_map (fun a => inject_Z (Recency a))).
    + intros w Hw. apply in_map_iff in Hw. destruct Hw as [a' [<- Ha']].
      destruct (output_covers df out a' H Ha') as [r' [Hr' <-]].
      rewrite <- Zle_Qle. now apply Low.
  - rewrite lowest_cell; [reflexivity|exact V| |].
    + now apply (in_map (fun a => inject_Z (Frequency a))).
    + intros w Hw. apply in_map_iff in Hw. destruct Hw as [a' [<- Ha']].
      destruct (output_covers df out a' H Ha') as [r' [Hr' <-]].
      rewrite <- Zle_Qle. now apply Low.
  - rewrite lowest_cell; [reflexivity|exact V| |].
    + now apply (in_map Monetary).
    + intros w Hw. apply in_map_iff in Hw. destruct Hw as [a' [<- Ha']].
      destruct (output_covers df out a' H Ha') as [r' [Hr' <-]].
      now apply Low.
Qed.

Lemma lowest_value_scores_witness :
  exists r,
    compute_segments shop = Ok shop_segments /\ In r shop_segments
    /\ varies (recency_column (rfm shop))
    /\ (forall r', In r' shop_segments ->
          Recency (metrics (scored r)) <= Recency (metrics (scored r')))
    /\ R_Score (scored r) = SInt 5.
Proof.
  destruct shop_last_record as [r [Hr C]]. exists r.
  assert (H : compute_segments shop = Ok shop_segments)
    by (vm_compute; reflexivity).
  assert (Low : forall r', In r' shop_segments ->
            Recency (metrics (scored r)) <= Recency (metrics (scored r'))).
  { intros r' Hr'. revert C. unfold shop_segments in Hr, Hr'.
    each_row Hr ltac:(each_row Hr' ltac:(vm_compute; intros; congruence)). }
  split; [exact H|]. split; [exact Hr|].
  split; [exact shop_recency_varies|]. split; [exact Low|].
  exact (proj1 (lowest_value_scores shop shop_segments r H Hr)
               shop_recency_varies Low).
Defined.

(** X11. A score column is never mixed: in one run the recency scores are
    whole numbers from 1 to 5 for every customer or NaN for every customer,
    and so are the frequency scores and the monetary scores. *)
Theorem score_columns_uniform (df : list CleanRow) (out : list Segmented) :
  compute_segments df = Ok out ->
  uniform (map (fun r => R_Score (scored r)) out)
  /\ uniform (map (fun r => F_Score (scored r)) out)
  /\ uniform (map (fun r => M_Score (scored r)) out).
Proof.
  intros H. destruct (scores_from_buckets df out H) as [-> [-> ->]].
  assert (G : forall (f : Score -> Score) col,
             (forall b, bucket_index b -> on_scale (f b)) -> f SNaN = SNaN ->
             uniform (map f (qcut col 5))).
  { intros f col Hf Hn. destruct (qcut_cases col) as [C|C]; [left|right];
      rewrite Forall_forall in *; intros c Hc; apply in_map_iff in Hc;
      destruct Hc as [b [<- Hb]]; [now apply Hf, C|].
    now rewrite <- (C b Hb). }
  split; [|split]; apply G; try reflexivity; intros b Hb;
    apply (score_of_bucket b Hb).
Qed.

Lemma score_columns_uniform_witness :
  compute_segments once_each = Ok once_each_segments
  /\ uniform (map (fun r => F_Score (scored r)) once_each_segments).
Proof.
  assert (H : compute_segments once_each = Ok once_each_segments)
    by (vm_compute; reflexivity).
  split; [exact H|].
  exact (proj1 (proj2 (score_columns_uniform once_each _ H))).
Defined.

(** *** Scores and labels *)

Lemma segment_of_row a r f m :
  segment (mkScored a r f m (rfm_score r f m))
  = label_of (rfm_score r f m).
Proof. apply segment_label. Qed.

(** X12. When recency has the same value for every customer, its score is
    NaN, every composite string is "nan" followed by the strings of the
    frequency and monetary scores, so it starts with "nan", and every
    customer is labelled Champions, whatever the frequency and monetary
    scores. *)
Theorem constant_recency_all_champions (df : list CleanRow)
    (out : list Segmented) (r : Segmented) :
  compute_segments df = Ok out -> In r out ->
  ~ varies (recency_column (rfm df)) ->
  R_Score (scored r) = SNaN
  /\ RFM_Score (scored r)
     = String.append "nan"
         (String.append (astype_str (F_Score (scored r)))
                        (astype_str (M_Score (scored r))))
  /\ String.prefix "nan" (RFM_Score (scored r)) = true
  /\ Segment r = "Champions"%string.
Proof.
  intros H Hr N.
  pose proof (proj1 (constant_metric_scores df out r H Hr) N) as E.
  split; [exact E|].
  destruct (output_row df out r H Hr) as [a [_ Er]]. rewrite Er in *.
  cbn [scored R_Score F_Score M_Score RFM_Score Segment] in *.
  rewrite segment_of_row, E. unfold rfm_score. cbn [astype_str].
  generalize (String.append (astype_str (score_F (rfm df) a))
                            (astype_str (score_M (rfm df) a))).
  intros rest. split; [reflexivity|]. split; [|reflexivity].
  destruct rest; reflexivity.
Qed.

Lemma constant_recency_all_champions_witness :
  exists r,
    compute_segments lone = Ok [r] /\ In r [r]
    /\ ~ varies (recency_column (rfm lone))
    /\ String.prefix "nan" (RFM_Score (scored r)) = true
    /\ Segment r = "Champions"%string.
Proof.
  eexists. split; [vm_compute; reflexivity|]. split; [now left|].
  assert (N : ~ varies (recency_column (rfm lone))).
  { intros [a [b [Ha [Hb Nab]]]]. vm_compute in Ha, Hb.
    destruct Ha as [<-|[]]. destruct Hb as [<-|[]]. now apply Nab. }
  split; [exact N|].
  lazymatch goal with
  | |- _ /\ Segment ?r = _ =>
      exact (proj2 (proj2 (constant_recency_all_champions lone [r] r
                      ltac:(vm_compute; reflexivity) (or_introl eq_refl) N)))
  end.
Defined.

(** X13. The recency digit alone decides the two extreme labels: a
    customer with recency score 5 is labelled Champions and a customer with
    recency score 1 is labelled Churn Risk, whatever the frequency and
    monetary scores are, NaN included. *)
Theorem recency_digit_decides (df : list CleanRow) (out : list Segmented)
    (r : Segmented) :
  compute_segments df = Ok out -> In r out ->
  (R_Score (scored r) = SInt 5 -> Segment r = "Champions"%string)
  /\ (R_Score (scored r) = SInt 1 -> Segment r = "Churn Risk"%string).
Proof.
  intros H Hr. destruct (output_row df out r H Hr) as [a [_ ->]].
  cbn [scored R_Score Segment]. rewrite segment_of_row.
  split; intros ->; reflexivity.
Qed.

Lemma recency_digit_decides_witness :
  exists r,
    compute_segments shop = Ok shop_segments /\ In r shop_segments
    /\ R_Score (scored r) = SInt 1
    /\ Segment r = "Churn Risk"%string.
Proof.
  destruct shop_first_record as [r [Hr C]]. exists r.
  assert (H : compute_segments shop = Ok shop_segments)
    by (vm_compute; reflexivity).
  assert (E : R_Score (scored r) = SInt 1).
  { revert C. unfold shop_segments in Hr.
    each_row Hr ltac:(vm_compute; intros; congruence). }
  split; [exact H|]. split; [exact Hr|]. split; [exact E|].
  exact (proj2 (recency_digit_decides shop shop_segments r H Hr) E).
Defined.

(** X14. When each of the three metrics takes two different values among
    the customers, every composite string consists of three digits from 1 to
    5, and the label is the one the three digit number [100 R + 10 F + M]
    gets from the numeric cutoffs 444, 333 and 222. *)
Theorem label_by_number (df : list CleanRow) (out : list Segmented)
    (r : Segmented) :
  metrics_vary (rfm df) -> compute_segments df = Ok out -> In r out ->
  exists a b c,
    1 <= a <= 5 /\ 1 <= b <= 5 /\ 1 <= c <= 5
    /\ R_Score (scored r) = SInt a /\ F_Score (scored r) = SInt b
    /\ M_Score (scored r) = SInt c
    /\ String.length (RFM_Score (scored r)) = 3%nat
    /\ Segment r =
       (if 444 <=? three_digits a b c then "Champions"%string
        else if 333 <=? three_digits a b c then "Loyal Customers"%string
        else if 222 <=? three_digits a b c then "Potential Loyalists"%string
        else "Churn Risk"%string).
Proof.
  intros V H Hr.
  destruct (scores_on_scale df out r V H Hr) as [SR [SF SM]].
  destruct (composite_of_digits _ _ _ SR SF SM)
    as [a [b [c [Ea [Eb [Ec [L [C4 [C3 C2]]]]]]]]].
  destruct (output_row df out r H Hr) as [x [_ Er]].
  exists a, b, c.
  destruct SR as [a' [Ea' Ha]]. destruct SF as [b' [Eb' Hb]].
  destruct SM as [c' [Ec' Hc]].
  assert (a' = a) by congruence. assert (b' = b) by congruence.
  assert (c' = c) by congruence. subst a' b' c'.
  do 6 (split; [assumption|]).
  rewrite Er in *. cbn [scored R_Score F_Score M_Score RFM_Score Segment] in *.
  split; [exact L|]. unfold segment. cbn [RFM_Score].
  now rewrite C4, C3, C2.
Qed.

Lemma shop_metrics_vary : metrics_vary (rfm shop).
Proof.
  split; [exact shop_recency_varies|]. split.
  - exists (inject_Z 1), (inject_Z 2).
    split; [vm_compute; left; reflexivity|].
    split; [vm_compute; do 5 right; left; reflexivity|]. discriminate.
  - exists (6 # 2)%Q, (14 # 2)%Q.
    split; [vm_compute; left; reflexivity|].
    split; [vm_compute; do 3 right; left; reflexivity|]. discriminate.
Qed.

Lemma label_by_number_witness :
  exists r,
    metrics_vary (rfm shop) /\ compute_segments shop = Ok shop_segments
    /\ In r shop_segments
    /\ String.length (RFM_Score (scored r)) = 3%nat.
Proof.
  destruct shop_first_record as [r [Hr _]]. exists r.
  assert (H : compute_segments shop = Ok shop_segments)
    by (vm_compute; reflexivity).
  split; [exact shop_metrics_vary|]. split; [exact H|]. split; [exact Hr|].
  destruct (label_by_number shop shop_segments r shop_metrics_vary H Hr)
    as [a [b [c [_ [_ [_ [_ [_ [_ [L _]]]]]]]]]].
  exact L.
Defined.

End SegmenterMore.

(** ** The basket miner, continued *)

Module BasketMinerMore.
Import Pandas Retail BasketMiner Contract Notions Samples ListFacts NumFacts.
Import BasketMinerSpec.

Lemma invoice_labels df i :
  In i (index (basket df)) <-> exists d, occurs i d df.
Proof.
  unfold basket, frame_map, fillna, unstack, occurs. cbn [index].
  rewrite (level_labels fst). split.
  - intros [[i' d] [H <-]]. apply keys_In in H. exists d. exact H.
  - intros [d H]. exists (i, d). split; [|reflexivity]. now apply keys_In.
Qed.

Lemma item_labels df d :
  In d (columns (basket df)) <-> exists i, occurs i d df.
Proof.
  unfold basket, frame_map, fillna, unstack, occurs. cbn [columns].
  rewrite (level_labels snd). split.
  - intros [[i d'] [H <-]]. apply keys_In in H. exists i. exact H.
  - intros [i H]. exists (i, d). split; [|reflexivity]. now apply keys_In.
Qed.

(** The matrix, cell by cell. *)
Lemma basket_cells df :
  basket df
  = mkFrame (index (basket df)) (columns (basket df))
            (map (fun i => map (fun d => 0 <? wrap64 (quantity_on i d df))
                               (columns (basket df)))
                 (index (basket df))).
Proof.
  unfold basket, frame_map, fillna, unstack. cbn [index columns values].
  f_equal. rewrite !map_map. apply map_ext. intros i.
  rewrite !map_map. apply map_ext. intros d. now rewrite cell_value.
Qed.

Lemma basket_loc df i d :
  In i (index (basket df)) -> In d (columns (basket df)) ->
  loc (basket df) i d = Some (0 <? wrap64 (quantity_on i d df)).
Proof.
  intros Hi Hd. rewrite basket_cells at 1. unfold loc.
  cbn [index columns values].
  destruct (get_loc_In _ i Hi) as [a [-> Na]].
  destruct (get_loc_In _ d Hd) as [c [-> Nc]].
  rewrite (map_nth_error _ _ _ Na). now rewrite (map_nth_error _ _ _ Nc).
Qed.

(** With positive quantities, the quantity of an item on an invoice is
    positive exactly when the item occurs there, and it is at most the sum
    of all the quantities of the file. *)
Lemma quantity_on_positive df i d :
  (forall r, In r df -> 0 < Quantity (line r)) ->
  (0 < quantity_on i d df <-> occurs i d df)
  /\ 0 <= quantity_on i d df
     <= fold_right Z.add 0 (map (fun r => Quantity (line r)) df).
Proof.
  unfold quantity_on, occurs.
  set (f := fun r : CleanRow =>
              (String.eqb (InvoiceNo (line r)) i
               && match Description (line r) with
                  | Some d' => String.eqb d' d
                  | None => false
                  end)%bool).
  assert (F : forall r, f r = true <->
              InvoiceNo (line r) = i /\ Description (line r) = Some d).
  { intros r. unfold f. rewrite andb_true_iff, String.eqb_eq.
    destruct (Description (line r)) as [d'|].
    - rewrite String.eqb_eq. split; intros [A B]; split; congruence.
    - split; intros [A B]; discriminate. }
  induction df as [|x df IH]; intros P.
  - simpl. split; [|lia]. split; [lia|]. intros [r [[] _]].
  - destruct IH as [[I1 I2] B]; [intros r Hr; apply P; now right|].
    pose proof (P x (or_introl eq_refl)) as Px.
    cbn [filter map fold_right]. destruct (f x) eqn:E.
    + cbn [map fold_right]. split; [|lia]. split; [|lia].
      intros _. exists x. split; [now left|now apply F].
    + split; [|lia]. split.
      * intros H. destruct (I1 H) as [r [Hr K]]. exists r. split; [now right|exact K].
      * intros [r [[<-|Hr] K]].
        -- apply F in K. congruence.
        -- apply I2. eauto.
Qed.

(** X15. On a file in which every quantity is positive, as the cleaner
    writes it, and the quantities sum to less than [2 ^ 63], a cell of the
    incidence matrix is true exactly when the item occurs on the invoice;
    every invoice of the matrix has at least one true cell and every item
    at least one. *)
Theorem basket_of_positive_quantities (df : list CleanRow) :
  (forall r, In r df -> 0 < Quantity (line r)) ->
  fold_right Z.add 0 (map (fun r => Quantity (line r)) df) < 2 ^ 63 ->
  (forall i d, In i (index (basket df)) -> In d (columns (basket df)) ->
     (loc (basket df) i d = Some true <-> occurs i d df)
     /\ (loc (basket df) i d = Some false <-> ~ occurs i d df))
  /\ (forall i, In i (index (basket df)) ->
        exists d, In d (columns (basket df))
                  /\ loc (basket df) i d = Some true)
  /\ (forall d, In d (columns (basket df)) ->
        exists i, In i (index (basket df))
                  /\ loc (basket df) i d = Some true).
Proof.
  intros P T.
  assert (W : forall i d, wrap64 (quantity_on i d df) = quantity_on i d df).
  { intros i d. apply wrap64_fits. unfold in_int64.
    pose proof (proj2 (quantity_on_positive df i d P)). lia. }
  assert (C : forall i d, In i (index (basket df)) ->
              In d (columns (basket df)) ->
              (loc (basket df) i d = Some true <-> occurs i d df)).
  { intros i d Hi Hd. rewrite (basket_loc df i d Hi Hd), W.
    rewrite <- (proj1 (quantity_on_positive df i d P)), <- Z.ltb_lt.
    split; [intros H; now injection H|intros ->; reflexivity]. }
  split; [|split].
  - intros i d Hi Hd. split; [now apply C|].
    rewrite <- (C i d Hi Hd), (basket_loc df i d Hi Hd).
    destruct (0 <? wrap64 (quantity_on i d df)); split; congruence.
  - intros i Hi. pose proof Hi as Hi'. apply invoice_labels in Hi'.
    destruct Hi' as [d O]. exists d.
    assert (Hd : In d (columns (basket df))) by (apply item_labels; eauto).
    split; [exact Hd|]. now apply C.
  - intros d Hd. pose proof Hd as Hd'. apply item_labels in Hd'.
    destruct Hd' as [i O]. exists i.
    assert (Hi : In i (index (basket df))) by (apply invoice_labels; eauto).
    split; [exact Hi|]. now apply C.
Qed.

Lemma basket_of_positive_quantities_witness :
  (forall r, In r shop -> 0 < Quantity (line r))
  /\ fold_right Z.add 0 (map (fun r => Quantity (line r)) shop) < 2 ^ 63
  /\ loc (basket shop) "3" "HAND WARMER" = Some false
  /\ ~ occurs "3" "HAND WARMER" shop.
Proof.
  assert (P : forall r, In r shop -> 0 < Quantity (line r))
    by (intros r Hr; each_row Hr ltac:(reflexivity)).
  assert (L : loc (basket shop) "3" "HAND WARMER" = Some false)
    by (vm_compute; reflexivity).
  split; [exact P|]. split; [reflexivity|]. split; [exact L|].
  apply (proj1 (basket_of_positive_quantities shop P eq_refl)
           "3" "HAND WARMER")%string;
    [vm_compute; do 2 right; left; reflexivity
    |vm_compute; left; reflexivity|exact L].
Defined.

(** *** The order of the rows does not matter *)

Lemma string_leb_cases a b :
  String.leb a b = true <-> OrderedTypeEx.String_as_OT.lt a b \/ a = b.
Proof.
  unfold String.leb.
  pose proof (OrderedTypeEx.String_as_OT.cmp_lt a b) as L.
  pose proof (OrderedTypeEx.String_as_OT.cmp_eq a b) as E.
  unfold OrderedTypeEx.String_as_OT.cmp in *.
  destruct (String.compare a b); split; try tauto; try discriminate.
  - intros [H|H]; [apply L in H|apply E in H]; discriminate.
Qed.

Lemma string_leb_trans a b c :
  String.leb a b = true -> String.leb b c = true -> String.leb a c = true.
Proof.
  rewrite !string_leb_cases. intros [H1| ->] [H2| ->]; auto.
  left. eapply OrderedTypeEx.String_as_OT.lt_trans; eauto.
Qed.

Lemma string_leb_total a b : String.leb a b = false -> String.leb b a = true.
Proof. destruct (String.leb_total a b); congruence. Qed.

(** An ascending list without repetition is determined by its members. *)
Lemma ascending_unique (l l' : list string) :
  StronglySorted (fun a b => String.leb a b = true) l ->
  StronglySorted (fun a b => String.leb a b = true) l' ->
  NoDup l -> NoDup l' -> (forall x, In x l <-> In x l') -> l = l'.
Proof.
  intros S. revert l'. induction S as [|a l Sl IH Fa]; intros l' S' D D' M.
  - destruct l' as [|b l']; [reflexivity|].
    exfalso. apply (M b). now left.
  - destruct S' as [|b l' Sl' Fb].
    + exfalso. apply (M a). now left.
    + rewrite Forall_forall in Fa, Fb.
      inversion D as [|? ? Na Dl]; subst. inversion D' as [|? ? Nb Dl']; subst.
      assert (E : a = b).
      { destruct (proj1 (M a) (or_introl eq_refl)) as [->|Ha]; [reflexivity|].
        destruct (proj2 (M b) (or_introl eq_refl)) as [->|Hb]; [reflexivity|].
        apply String.leb_antisym; [now apply Fa|now apply Fb]. }
      subst b. f_equal. apply IH; try assumption.
      intros x. split; intros Hx.
      * destruct (proj1 (M x) (or_intror Hx)) as [->|H]; [contradiction|exact H].
      * destruct (proj2 (M x) (or_intror Hx)) as [->|H]; [contradiction|exact H].
Qed.

Lemma quantity_on_perm i d df df' :
  Permutation df df' -> quantity_on i d df = quantity_on i d df'.
Proof.
  unfold quantity_on.
  induction 1 as [|x l l' P IH|x y l|l l' l'' P1 IH1 P2 IH2];
    [reflexivity| | |congruence].
  - simpl. destruct (_ && _)%bool; simpl; now rewrite IH.
  - simpl. destruct (String.eqb (InvoiceNo (line y)) i && _)%bool;
      destruct (String.eqb (InvoiceNo (line x)) i && _)%bool; simpl; lia.
Qed.

Lemma labels_ascending (proj : key -> string) df :
  StronglySorted (fun a b => String.leb a b = true)
    (sort_values String.leb
       (unique String.eqb (map (fun e => proj (fst e)) (quantity_sums df)))).
Proof.
  apply sort_values_sorted; [exact string_leb_total|exact string_leb_trans].
Qed.

(** X16. The incidence matrix does not depend on the order of the rows of
    the cleaned file: two files with the same rows in any order give the
    same labels, in the same order, and the same cells. *)
Theorem basket_order_independent (df df' : list CleanRow) :
  Permutation df df' -> basket df = basket df'.
Proof.
  intros P.
  assert (I : index (basket df) = index (basket df')).
  { apply ascending_unique; try apply (labels_ascending fst);
      try apply (level_NoDup fst).
    intros x. rewrite !invoice_labels.
    split; intros [d [r [Hr E]]]; exists d, r; split; auto;
      [apply (Permutation_in _ P)|apply (Permutation_in _ (Permutation_sym P))];
      exact Hr. }
  assert (C : columns (basket df) = columns (basket df')).
  { apply ascending_unique; try apply (labels_ascending snd);
      try apply (level_NoDup snd).
    intros x. rewrite !item_labels.
    split; intros [i [r [Hr E]]]; exists i, r; split; auto;
      [apply (Permutation_in _ P)|apply (Permutation_in _ (Permutation_sym P))];
      exact Hr. }
  rewrite (basket_cells df), (basket_cells df'), I, C. f_equal.
  apply map_ext. intros i. apply map_ext. intros d.
  now rewrite (quantity_on_perm i d df df' P).
Qed.

Lemma basket_order_independent_witness :
  Permutation shop (rev shop) /\ basket shop = basket (rev shop).
Proof.
  assert (P : Permutation shop (rev shop)) by apply Permutation_rev.
  split; [exact P|]. exact (basket_order_independent shop (rev shop) P).
Defined.

End BasketMinerMore.

(** ** The warehouse loader, continued *)

Module LoaderMore.
Import Pandas Retail Loader Contract Notions Samples ListFacts LoaderSpec.

Lemma product_eqb_eq a b : product_eqb a b = true <-> a = b.
Proof.
  destruct a as [a1 [x|]], b as [b1 [y|]]; unfold product_eqb;
    cbn [fst snd]; rewrite andb_true_iff, !String.eqb_eq; split; intros H.
  - destruct H; congruence.
  - split; congruence.
  - destruct H; discriminate.
  - discriminate.
  - destruct H; discriminate.
  - discriminate.
  - destruct H; congruence.
  - split; congruence.
Qed.

Lemma customer_mk_inj : forall p q : option Z * string,
  DimCustomer.mk (fst p) (snd p) = DimCustomer.mk (fst q) (snd q) -> p = q.
Proof. intros [a b] [c d] H. simpl in H. now injection H as -> ->. Qed.

Lemma product_mk_inj : forall p q : string * option string,
  DimProduct.mk (fst p) (snd p) = DimProduct.mk (fst q) (snd q) -> p = q.
Proof. intros [a b] [c d] H. simpl in H. now injection H as -> ->. Qed.

Lemma df_customers_In df c :
  In c (df_customers df)
  <-> exists x, In x df
                /\ c = DimCustomer.mk (CustomerID (line x)) (Country (line x)).
Proof.
  unfold df_customers, drop_duplicates. rewrite in_map_iff. split.
  - intros [p [<- Hp]].
    apply (proj1 (unique_In customer_eqb customer_eqb_eq _ _)) in Hp.
    apply in_map_iff in Hp. destruct Hp as [x [<- Hx]]. eauto.
  - intros [x [Hx ->]].
    exists (CustomerID (line x), Country (line x)). split; [reflexivity|].
    apply (proj2 (unique_In customer_eqb customer_eqb_eq _ _)).
    apply (in_map (fun r => (CustomerID (line r), Country (line r)))), Hx.
Qed.

Lemma df_products_In df p :
  In p (df_products df)
  <-> exists x, In x df
                /\ p = DimProduct.mk (StockCode (line x)) (Description (line x)).
Proof.
  unfold df_products, drop_duplicates. rewrite in_map_iff. split.
  - intros [q [<- Hq]].
    apply (proj1 (unique_In product_eqb product_eqb_eq _ _)) in Hq.
    apply in_map_iff in Hq. destruct Hq as [x [<- Hx]]. eauto.
  - intros [x [Hx ->]].
    exists (StockCode (line x), Description (line x)). split; [reflexivity|].
    apply (proj2 (unique_In product_eqb product_eqb_eq _ _)).
    apply (in_map (fun r => (StockCode (line r), Description (line r)))), Hx.
Qed.

(** X17. After a load neither dimension table holds the same row twice,
    and [dim_product] has as many rows as the cleaned data has distinct
    (StockCode, Description) pairs. *)
Theorem dimension_tables_distinct (df : list CleanRow) (db : Database) :
  NoDup (dim_customer (load df db))
  /\ NoDup (dim_product (load df db))
  /\ List.length (dim_product (load df db))
     = List.length (distinct_product_pairs df).
Proof.
  destruct (load_tables df db) as [-> [-> _]].
  unfold df_customers, df_products, drop_duplicates. split; [|split].
  - apply Finite.Injective_map_NoDup; [exact customer_mk_inj|].
    apply unique_NoDup, customer_eqb_eq.
  - apply Finite.Injective_map_NoDup; [exact product_mk_inj|].
    apply unique_NoDup, product_eqb_eq.
  - rewrite length_map. apply unique_length_nodup, product_eqb_eq.
Qed.

(** X18. The tables reference each other completely: every row of
    [fact_sales] finds its customer in [dim_customer] and its product in
    [dim_product], and every row of either dimension table is referenced by
    a row of [fact_sales]. *)
Theorem facts_reference_dimensions (df : list CleanRow) (db : Database) :
  let w := load df db in
  (forall f, In f (fact_sales w) ->
     (exists c, In c (dim_customer w)
                /\ DimCustomer.customer_id c = FactSales.customer_id f)
     /\ (exists p, In p (dim_product w)
                   /\ DimProduct.product_id p = FactSales.product_id f))
  /\ (forall c, In c (dim_customer w) ->
        exists f, In f (fact_sales w)
                  /\ FactSales.customer_id f = DimCustomer.customer_id c)
  /\ (forall p, In p (dim_product w) ->
        exists f, In f (fact_sales w)
                  /\ FactSales.product_id f = DimProduct.product_id p).
Proof.
  intros w. unfold w. destruct (load_tables df db) as [-> [-> ->]].
  split; [|split].
  - intros f Hf. unfold df_facts in Hf. apply in_map_iff in Hf.
    destruct Hf as [x [<- Hx]]. cbn [FactSales.customer_id FactSales.product_id].
    split; eexists; (split; [apply df_customers_In || apply df_products_In;
                             eauto|reflexivity]).
  - intros c Hc. apply df_customers_In in Hc. destruct Hc as [x [Hx ->]].
    eexists. split; [apply in_map, Hx|reflexivity].
  - intros p Hp. apply df_products_In in Hp. destruct Hp as [x [Hx ->]].
    eexists. split; [apply in_map, Hx|reflexivity].
Qed.

(** X19. [dim_customer] is keyed by the pair, not by the customer: a
    customer identifier has as many rows in [dim_customer] as the cleaned
    data shows distinct countries for it. *)
Theorem customer_rows_per_country (df : list CleanRow) (db : Database)
    (k : option Z) :
  List.length
    (filter (fun c => option_Z_eqb (DimCustomer.customer_id c) k)
            (dim_customer (load df db)))
  = List.length (countries_of k df).
Proof.
  destruct (load_tables df db) as [-> _].
  rewrite <- (length_map DimCustomer.country).
  apply Permutation_length, NoDup_Permutation.
  - apply Finite.Injective_map_NoDup_in.
    + intros a b Ha Hb E. apply filter_In in Ha, Hb.
      destruct Ha as [_ Ka], Hb as [_ Kb].
      destruct a as [ia ca], b as [ib cb]. cbn in E, Ka, Kb. subst cb.
      f_equal. destruct ia, ib, k; cbn in Ka, Kb; try discriminate;
        try reflexivity.
      apply Z.eqb_eq in Ka, Kb. congruence.
    + apply NoDup_filter. unfold df_customers, drop_duplicates.
      apply Finite.Injective_map_NoDup; [exact customer_mk_inj|].
      apply unique_NoDup, customer_eqb_eq.
  - apply NoDup_nodup.
  - intros s. unfold countries_of. rewrite nodup_In, !in_map_iff. split.
    + intros [c [<- Hc]]. apply filter_In in Hc. destruct Hc as [Hc K].
      apply df_customers_In in Hc. destruct Hc as [x [Hx ->]].
      exists x. split; [reflexivity|]. apply filter_In. auto.
    + intros [x [<- Hx]]. apply filter_In in Hx. destruct Hx as [Hx K].
      exists (DimCustomer.mk (CustomerID (line x)) (Country (line x))).
      split; [reflexivity|]. apply filter_In. split; [|exact K].
      apply df_customers_In. eauto.
Qed.

End LoaderMore.

(** ** The segmentation rule, continued *)

Module SegmentRule.
Import Pandas Retail Segmenter Contract Notions Samples MoreSamples ListFacts.
Import BasketMinerMore.

(** X20. The label never goes down when the composite string goes up: if
    one composite string is lexicographically at most another, its label is
    at most the label of the other in the order Churn Risk, Potential
    Loyalists, Loyal Customers, Champions. *)
Theorem segment_monotone (row1 row2 : Scored) :
  String.leb (RFM_Score row1) (RFM_Score row2) = true ->
  rank (segment row1) <= rank (segment row2).
Proof.
  intros L. unfold segment, str_ge.
  assert (T : forall cut, String.leb cut (RFM_Score row1) = true ->
                          String.leb cut (RFM_Score row2) = true)
    by (intros cut H; exact (string_leb_trans _ _ _ H L)).
  pose proof (T "444"%string) as T4. pose proof (T "333"%string) as T3.
  pose proof (T "222"%string) as T2.
  destruct (String.leb "444" (RFM_Score row1));
    [rewrite T4 by reflexivity; vm_compute; discriminate|].
  destruct (String.leb "333" (RFM_Score row1));
    [rewrite T3 by reflexivity;
     destruct (String.leb "444" (RFM_Score row2)); vm_compute; discriminate|].
  destruct (String.leb "222" (RFM_Score row1));
    [rewrite T2 by reflexivity;
     destruct (String.leb "444" (RFM_Score row2));
     destruct (String.leb "333" (RFM_Score row2)); vm_compute; discriminate|].
  destruct (String.leb "444" (RFM_Score row2));
    destruct (String.leb "333" (RFM_Score row2));
    destruct (String.leb "222" (RFM_Score row2)); vm_compute; discriminate.
Qed.

Lemma segment_monotone_witness :
  let row1 := mkScored (mkRfm 1 6 1 (6 # 2)) (SInt 1) (SInt 5) (SInt 5) "155" in
  let row2 := mkScored (mkRfm 2 5 1 (6 # 2)) (SInt 2) (SInt 2) (SInt 2) "222" in
  String.leb (RFM_Score row1) (RFM_Score row2) = true
  /\ rank (segment row1) <= rank (segment row2).
Proof.
  intros row1 row2.
  assert (L : String.leb (RFM_Score row1) (RFM_Score row2) = true)
    by reflexivity.
  split; [exact L|]. exact (segment_monotone row1 row2 L).
Defined.

End SegmentRule.
